(** * Retail transaction preprocessing: a shallow embedding

    Model of [Preprocessing/automate_Chardinal Martin Butarbutar.py].  The
    script has one function of interest, [preprocess_transaction_data], which
    loads a CSV file into a pandas [DataFrame], removes duplicated and
    incomplete rows, converts, renames, drops and label-encodes a few columns
    and writes the frame back as CSV.

    The pandas and scikit-learn operations that the function calls are
    embedded as executable functions over a column-major frame; the function
    itself is written in a small state-and-exception monad over a store of
    files and the standard output. *)

From Stdlib Require Import ZArith QArith Qcanon String Ascii Sorted.
From stdpp Require Import base tactics option list numbers strings gmap sorting.

Local Open Scope string_scope.
Local Open Scope list_scope.

(** ** Cells *)

(** A scalar held by a frame.  [NaN] is the missing value ([NaN], [None] and
    [NaT] alike).  A finite float64 is kept as the rational it denotes: the
    pipeline compares and orders floats and never computes with them. *)
Inductive cell : Type :=
  | NaN
  | Str (s : string)
  | Boolean (b : bool)
  | Int (z : Z)
  | Float (q : Qc)
  | Timestamp (ns : Z).

Global Instance cell_eq_dec : EqDecision cell.
Proof. solve_decision. Defined.

Global Instance cell_inhabited : Inhabited cell := populate NaN.

(** [pd.isnull] on a scalar. *)
Definition isnull (c : cell) : bool :=
  match c with NaN => true | _ => false end.

(** The order in which values are sorted: strings by code point (bytewise on
    the UTF-8 text), numbers numerically, [False] before [True]; a missing
    value sorts after every other value.  Values of different types are never
    compared by the code below (see [uniform]); they are ranked by type only
    to make the comparison total. *)
Definition type_rank (c : cell) : nat :=
  match c with
  | Str _ => 0 | Boolean _ => 1 | Int _ => 2 | Float _ => 3
  | Timestamp _ => 4 | NaN => 5
  end.

Definition cell_compare (x y : cell) : comparison :=
  match x, y with
  | Str a, Str b => String.compare a b
  | Boolean a, Boolean b => Bool.compare a b
  | Int a, Int b => Z.compare a b
  | Float a, Float b => Qccompare a b
  | Timestamp a, Timestamp b => Z.compare a b
  | _, _ => Nat.compare (type_rank x) (type_rank y)
  end.

Definition cell_le (x y : cell) : Prop := cell_compare x y ≠ Gt.
Definition cell_lt (x y : cell) : Prop := cell_compare x y = Lt.

Global Instance comparison_eq_dec : EqDecision comparison.
Proof. solve_decision. Defined.

Global Instance cell_le_dec : RelDecision cell_le.
Proof. intros x y. unfold cell_le. apply _. Defined.

Global Instance cell_lt_dec : RelDecision cell_lt.
Proof. intros x y. unfold cell_lt. apply _. Defined.

Definition same_type (x y : cell) : bool :=
  bool_decide (type_rank x = type_rank y).

(** ** Exceptions and results *)

Inductive exn : Type :=
  | FileNotFoundError (path : string)
  | ParserError
  | KeyError (label : string)
  | ValueError
  | TypeError
  | DateParseError.

Global Instance exn_eq_dec : EqDecision exn.
Proof. solve_decision. Defined.

Inductive result (A : Type) : Type :=
  | Ok (a : A)
  | Error (e : exn).
Global Arguments Ok {A} a.
Global Arguments Error {A} e.

Global Instance result_ret : MRet result := @Ok.
Global Instance result_bind : MBind result := λ A B f r,
  match r with Ok a => f a | Error e => Error e end.
Global Instance result_fmap : FMap result := λ A B f r,
  match r with Ok a => Ok (f a) | Error e => Error e end.

(** Run a fallible function over a list, stopping at the first exception. *)
Fixpoint traverse {A B} (f : A → result B) (l : list A) : result (list B) :=
  match l with
  | [] => Ok []
  | x :: l => y ← f x; ys ← traverse f l; Ok (y :: ys)
  end.

Definition or_raise {A} (e : exn) (o : option A) : result A :=
  match o with Some a => Ok a | None => Error e end.

(** ** Frames *)

(** A [DataFrame]: the row labels and the columns in order, each column a
    name and its values by position.  Names may repeat (as they can after a
    rename). *)
Record DataFrame : Type := {
  index : list nat;
  data : list (string * list cell)
}.

(** [df.columns] *)
Definition columns (df : DataFrame) : list string := (data df).*1.

(** The row at a position, over every column; a column that is too short
    reads as missing. *)
Definition cells_at (k : nat) (cols : list (list cell)) : list cell :=
  (λ c : list cell, default NaN (c !! k)) <$> cols.

Definition row_at (df : DataFrame) (k : nat) : list cell :=
  cells_at k (data df).*2.

Definition rows (df : DataFrame) : list (list cell) :=
  row_at df <$> seq 0 (length (index df)).

(** Boolean indexing [l[keep]]. *)
Fixpoint boolean_index {A} (keep : list bool) (l : list A) : list A :=
  match keep, l with
  | b :: keep, x :: l =>
      if b then x :: boolean_index keep l else boolean_index keep l
  | _, _ => []
  end.

(** [df[keep]]: the rows selected by a mask, labels kept. *)
Definition select_rows (keep : list bool) (df : DataFrame) : DataFrame :=
  {| index := boolean_index keep (index df);
     data := (λ c : string * list cell, (c.1, boolean_index keep c.2)) <$> data df |}.

(** [df.duplicated()] with [keep='first']: a row is marked when an earlier
    row has the same values in every column.  Missing values compare equal
    to each other here, as in pandas. *)
Fixpoint duplicated_from (seen rs : list (list cell)) : list bool :=
  match rs with
  | [] => []
  | r :: rs => bool_decide (r ∈ seen) :: duplicated_from (r :: seen) rs
  end.

Definition duplicated (df : DataFrame) : list bool :=
  duplicated_from [] (rows df).

(** [df.drop_duplicates(inplace=True)] *)
Definition drop_duplicates (df : DataFrame) : DataFrame :=
  select_rows (negb <$> duplicated df) df.

(** [df.isnull().sum()]: the number of missing values per column. *)
Definition isnull_sum (df : DataFrame) : list (string * nat) :=
  (λ c : string * list cell, (c.1, length (filter (λ v, isnull v = true) c.2)))
    <$> data df.

(** [mask.sum()] *)
Definition count_true (m : list bool) : nat :=
  length (filter (λ b, b = true) m).

(** [df.dropna(inplace=True)]: rows with a missing value in any column go. *)
Definition dropna (df : DataFrame) : DataFrame :=
  select_rows ((λ r, negb (existsb isnull r)) <$> rows df) df.

(** [df[label]]: the first column of that name, [KeyError] without one. *)
Fixpoint find_column (label : string) (cols : list (string * list cell))
    : option (list cell) :=
  match cols with
  | [] => None
  | c :: cols => if bool_decide (c.1 = label) then Some c.2 else find_column label cols
  end.

Definition getitem (label : string) (df : DataFrame) : result (list cell) :=
  or_raise (KeyError label) (find_column label (data df)).

(** [df[label] = values]: every column of that name is replaced, a new
    column is appended when there is none; values of the wrong length are a
    [ValueError]. *)
Definition replace_column (label : string) (values : list cell)
    (df : DataFrame) : DataFrame :=
  {| index := index df;
     data := (λ c : string * list cell,
                if bool_decide (c.1 = label) then (c.1, values) else c)
             <$> data df |}.

Definition setitem (label : string) (values : list cell) (df : DataFrame)
    : result DataFrame :=
  if bool_decide (length values = length (index df)) then
    if bool_decide (label ∈ columns df) then Ok (replace_column label values df)
    else Ok {| index := index df; data := data df ++ [(label, values)] |}
  else Error ValueError.

(** [df.rename(columns=mapper, inplace=True)]: labels absent from the frame
    are ignored. *)
Definition rename (mapper : gmap string string) (df : DataFrame) : DataFrame :=
  {| index := index df;
     data := (λ c : string * list cell, (default c.1 (mapper !! c.1), c.2))
             <$> data df |}.

(** [df.drop(columns=labels, inplace=True)]: a label that is not a column
    is a [KeyError]. *)
Definition drop (labels : list string) (df : DataFrame) : result DataFrame :=
  match list_find (λ l, l ∉ columns df) labels with
  | Some (_, l) => Error (KeyError l)
  | None =>
      Ok {| index := index df;
            data := filter (λ c : string * list cell, c.1 ∉ labels) (data df) |}
  end.

(** [pd.to_datetime(column)] with the default [errors='raise'].  The parser
    itself is the library's and is a parameter here: [parse column v] is the
    value [v] becomes when the whole [column] is converted (the format may be
    inferred from the column), [None] when [v] cannot be parsed.  The result
    may be the missing value: pandas reads the string [NaT] as one.  A parser
    that reads the clock (pandas does for [now] and [today]) is one such
    function for each reading of the clock. *)
Definition to_datetime (parse : list cell → cell → option cell)
    (column : list cell) : result (list cell) :=
  traverse (λ v, or_raise DateParseError (parse column v)) column.

(** ** Label encoding *)

(** [sklearn.preprocessing.LabelEncoder]: [classes_] holds the distinct
    values seen by [fit], sorted; [transform] replaces a value by its
    position in [classes_]. *)
Record LabelEncoder : Type := { classes_ : list cell }.

(** Sorting needs values of one type: strings and numbers together are a
    [TypeError].  A column read by pandas has one dtype, so its numbers are
    all [Int], all [Float] or all [Boolean].  Missing values are set
    aside. *)
Definition uniform (y : list cell) : bool :=
  match filter (λ v, isnull v = false) y with
  | [] => true
  | v :: vs => forallb (same_type v) vs
  end.

Definition fit (y : list cell) : result LabelEncoder :=
  if uniform y then Ok {| classes_ := merge_sort cell_le (remove_dups y) |}
  else Error TypeError.

Definition encode (classes : list cell) (v : cell) : result cell :=
  or_raise ValueError
    ((λ p : nat * cell, Int (Z.of_nat p.1)) <$> list_find (v =.) classes).

Definition transform (le : LabelEncoder) (y : list cell) : result (list cell) :=
  traverse (encode (classes_ le)) y.

Definition fit_transform (y : list cell) : result (LabelEncoder * list cell) :=
  le ← fit y; codes ← transform le y; Ok (le, codes).

(** ** Files and output *)

(** A CSV file is taken at the level of the table it holds: the header and
    the typed records that [pd.read_csv] infers from its text.  Any other
    content is [Malformed]. *)
Inductive file : Type :=
  | Csv (header : list string) (records : list (list cell))
  | Malformed.

Global Instance file_eq_dec : EqDecision file.
Proof. solve_decision. Defined.

(** What the function prints when [verbose]. *)
Inductive message : Type :=
  | Reading (path : string)
  | DuplicateCount (n : nat)
  | MissingCounts (counts : list (string * nat)).

(** The store of files by path, and the lines printed so far.  Directories
    are not part of the store. *)
Record World : Type := {
  files : gmap string file;
  stdout : list message
}.

(** The frame [pd.read_csv] builds: a fresh range index, one column per
    header field; a record with fewer fields than the header is completed
    with missing values. *)
Definition frame_of (header : list string) (records : list (list cell))
    : DataFrame :=
  {| index := seq 0 (length records);
     data := imap (λ j name, (name, (λ r : list cell, default NaN (r !! j)) <$> records))
                  header |}.

(** A record with more fields than the header is a tokenizing error. *)
Definition parse_csv (f : file) : result DataFrame :=
  match f with
  | Csv header records =>
      if forallb (λ r : list cell, (length r <=? length header)%nat) records
      then Ok (frame_of header records)
      else Error ParserError
  | Malformed => Error ParserError
  end.

(** The file [df.to_csv(path, index=False)] writes: the header of current
    column names and the rows, without the row labels. *)
Definition render_csv (df : DataFrame) : file := Csv (columns df) (rows df).

(** Computations that read and change the world and may raise. *)
Definition io (A : Type) : Type := World → result A * World.

Global Instance io_ret : MRet io := λ A a w, (Ok a, w).
Global Instance io_bind : MBind io := λ A B f m w,
  match m w with
  | (Ok a, w') => f a w'
  | (Error e, w') => (Error e, w')
  end.

Definition raise {A} (e : exn) : io A := λ w, (Error e, w).

Definition lift {A} (r : result A) : io A := λ w, (r, w).

(** [Path.exists] *)
Definition path_exists (path : string) : io bool :=
  λ w, (Ok (bool_decide (is_Some (files w !! path))), w).

(** [print] *)
Definition print (m : message) : io unit :=
  λ w, (Ok tt, {| files := files w; stdout := stdout w ++ [m] |}).

(** [pd.read_csv(path)] *)
Definition read_csv (path : string) : io DataFrame :=
  λ w, match files w !! path with
       | Some f => (parse_csv f, w)
       | None => (Error (FileNotFoundError path), w)
       end.

(** [df.to_csv(path, index=False)].  The store is taken to be writable:
    a write that fails, or that stops part of the way, is outside the
    model, and so are the directories that line 76 makes. *)
Definition to_csv (df : DataFrame) (path : string) : io unit :=
  λ w, (Ok tt, {| files := <[path := render_csv df]> (files w);
                   stdout := stdout w |}).

Definition when (b : bool) (m : io unit) : io unit :=
  if b then m else mret tt.

(** ** The preprocessing function *)

(** The numbered blocks of the function body are named first, then the
    function itself follows the source line by line. *)

Section Pipeline.
(** The date parser behind [pd.to_datetime]. *)
Variable parse : list cell → cell → option cell.

(** Stage 3: [TransactionDate] becomes a datetime column when present. *)
Definition convert_transaction_date (df : DataFrame) : result DataFrame :=
  if bool_decide ("TransactionDate" ∈ columns df) then
    column ← getitem "TransactionDate" df;
    dates ← to_datetime parse column;
    setitem "TransactionDate" dates df
  else Ok df.

(** Stage 4: the rename of the discount column. *)
Definition rename_discount (df : DataFrame) : DataFrame :=
  rename {[ "DiscountApplied(%)" := "DiscountApplied" ]} df.

(** Stage 5: the two unneeded columns are dropped, those that exist. *)
Definition cols_to_drop : list string := ["StoreLocation"; "ProductID"].

Definition drop_unneeded (df : DataFrame) : result DataFrame :=
  let existing_cols_to_drop := filter (λ c, c ∈ columns df) cols_to_drop in
  if bool_decide (existing_cols_to_drop ≠ []) then
    drop existing_cols_to_drop df
  else Ok df.

(** Stage 6, for one categorical column. *)
Definition encode_column (label : string) (df : DataFrame) : result DataFrame :=
  if bool_decide (label ∈ columns df) then
    column ← getitem label df;
    fitted ← fit_transform column;
    setitem label fitted.2 df
  else Ok df.

Definition preprocess_transaction_data
    (input_path output_path : string) (verbose : bool) : io string :=
  found ← path_exists input_path;
  if negb found then raise (FileNotFoundError input_path) else
  when verbose (print (Reading input_path));;
  df ← read_csv input_path;
  (* 1. duplicates *)
  when verbose (print (DuplicateCount (count_true (duplicated df))));;
  let df := drop_duplicates df in
  (* 2. missing values *)
  when verbose (print (MissingCounts (isnull_sum df)));;
  let df := dropna df in
  (* 3. TransactionDate *)
  df ← lift (convert_transaction_date df);
  (* 4. rename *)
  let df := rename_discount df in
  (* 5. unneeded columns *)
  df ← lift (drop_unneeded df);
  (* 6. categorical columns *)
  df ← lift (encode_column "PaymentMethod" df);
  df ← lift (encode_column "ProductCategory" df);
  (* 7. output_path.parent.mkdir(parents=True, exist_ok=True) only makes
     directories, which the store does not hold; then the frame is saved *)
  to_csv df output_path;;
  mret output_path.

(** *** Derived notions used to state the properties *)

(** The rows that survive stages 1 and 2. *)
Definition surviving (df : DataFrame) : DataFrame :=
  dropna (drop_duplicates df).

(** The frame that reaches [to_csv], as a function of the frame read. *)
Definition cleaned (df : DataFrame) : result DataFrame :=
  df ← convert_transaction_date (surviving df);
  df ← drop_unneeded (rename_discount df);
  df ← encode_column "PaymentMethod" df;
  encode_column "ProductCategory" df.

(** What a run prints before the first stage that can raise. *)
Definition progress (input_path : string) (f : file) : list message :=
  Reading input_path ::
  match parse_csv f with
  | Ok df => [DuplicateCount (count_true (duplicated df));
              MissingCounts (isnull_sum (drop_duplicates df))]
  | Error _ => []
  end.
End Pipeline.

(** ** The script *)

(** The arguments that [parse_args] returns: the values of [--input],
    [--output] and [--quiet]. *)
Record Namespace : Type := {
  input : string;
  output : string;
  quiet : bool
}.

(** The defaults that [parse_args] declares for the three options. *)
Definition default_args : Namespace :=
  {| input := "Retail-Transaction-Dataset_raw.csv";
     output := "output/Retail-Transaction-Dataset_clean.csv";
     quiet := false |}.

(** What the script prints: the progress lines of the function, then one
    closing line, the confirmation with the path that the function returned
    or the failure with the exception caught. *)
Inductive line : Type :=
  | Progress (m : message)
  | Saved (output_file : string)
  | Failed (e : exn).

(** The files and the terminal of a run of the script. *)
Record Process : Type := {
  disk : gmap string file;
  terminal : list line
}.

(** The body of the script, after [args = parse_args()]: the call is made
    with [verbose=not args.quiet]; [except Exception] catches whatever it
    raises, and the script ends normally either way. *)
Definition main (parse : list cell → cell → option cell)
    (args : Namespace) (t : Process) : Process :=
  match preprocess_transaction_data parse (input args) (output args)
          (negb (quiet args)) {| files := disk t; stdout := [] |} with
  | (Ok output_file, w) =>
      {| disk := files w;
         terminal := terminal t ++ (Progress <$> stdout w) ++ [Saved output_file] |}
  | (Error e, w) =>
      {| disk := files w;
         terminal := terminal t ++ (Progress <$> stdout w) ++ [Failed e] |}
  end.

(** A stand-in parser for the examples: a string of decimal digits is a
    date (read as a number of nanoseconds), an integer likewise, nothing else
    is. *)
Definition digits_value (s : string) : option Z :=
  let digits := list_ascii_of_string s in
  if bool_decide (s ≠ ""
                  ∧ Forall (λ a, a ∈ list_ascii_of_string "0123456789") digits)
  then Some (Z.of_N (fold_left (λ n a, (10 * n + (N_of_ascii a - 48))%N)
                       digits 0%N))
  else None.

Definition digits_parser (column : list cell) (v : cell) : option cell :=
  match v with
  | Str s => Timestamp <$> digits_value s
  | Int z => Some (Timestamp z)
  | _ => None
  end.

(** A small input used in the examples: a repeated row, a row whose only
    missing value is in [StoreLocation], and two rows that differ in
    [ProductID] alone. *)
Definition sample_header : list string :=
  ["TransactionDate"; "DiscountApplied(%)"; "StoreLocation"; "ProductID";
   "PaymentMethod"; "ProductCategory"].

Definition sample_records : list (list cell) :=
  [ [Str "20240101"; Int 5; Str "X"; Str "A"; Str "Cash"; Str "Books"];
    [Str "20240101"; Int 5; Str "X"; Str "A"; Str "Cash"; Str "Books"];
    [Str "20240102"; Int 7; NaN; Str "B"; Str "Card"; Str "Toys"];
    [Str "20240103"; Int 9; Str "Y"; Str "C"; Str "Card"; Str "Art"];
    [Str "20240103"; Int 9; Str "Y"; Str "D"; Str "Card"; Str "Art"] ].

Definition sample_world : World :=
  {| files := {[ "raw.csv" := Csv sample_header sample_records ]};
     stdout := [] |}.

(** An input whose only unparsable date sits in a row with a missing
    quantity. *)
Definition stray_world : World :=
  {| files := {[ "raw.csv" :=
                   Csv ["TransactionDate"; "Quantity"]
                       [ [Str "20240101"; Int 2]; [Str "yesterday"; NaN] ] ]};
     stdout := [] |}.

(** An input whose only row has a date that cannot be parsed. *)
Definition broken_world : World :=
  {| files := {[ "raw.csv" :=
                   Csv ["TransactionDate"; "Quantity"]
                       [ [Str "yesterday"; Int 1] ] ]};
     stdout := [] |}.

(** A parser that, like pandas, reads the string [NaT] as the missing
    timestamp, and an input that holds this string. *)
Definition nat_parser (column : list cell) (v : cell) : option cell :=
  match v with
  | Str "NaT" => Some NaN
  | _ => digits_parser column v
  end.

Definition nat_world : World :=
  {| files := {[ "raw.csv" :=
                   Csv ["TransactionDate"; "Quantity"] [ [Str "NaT"; Int 3] ] ]};
     stdout := [] |}.

(** A parser that, like pandas, reads the string [now] as the time of the
    call, for each reading [now] of the clock, and an input that holds this
    string. *)
Definition clock_parser (now : Z) (column : list cell) (v : cell) : option cell :=
  match v with
  | Str "now" => Some (Timestamp now)
  | _ => digits_parser column v
  end.

Definition clock_world : World :=
  {| files := {[ "raw.csv" :=
                   Csv ["TransactionDate"; "Quantity"] [ [Str "now"; Int 3] ] ]};
     stdout := [] |}.

(** An input whose PaymentMethod column holds a string and a number. *)
Definition mixed_world : World :=
  {| files := {[ "raw.csv" :=
                   Csv ["TransactionDate"; "PaymentMethod"]
                       [ [Str "20240101"; Str "Cash"]; [Str "20240102"; Int 3] ] ]};
     stdout := [] |}.

(** ** Notions used in the statements *)

(** Every column has one value per row label. *)
Definition rectangular (df : DataFrame) : Prop :=
  Forall (λ c : string * list cell, length c.2 = length (index df)) (data df).

(** A row without a missing value. *)
Definition complete (r : list cell) : Prop :=
  Forall (λ v, isnull v = false) r.

(** [column] holds, at each position of the index [idx], the value that
    [column0] has at the label found there. *)
Definition aligned (idx : list nat) (column column0 : list cell) : Prop :=
  length column = length idx ∧
  ∀ k i, idx !! k = Some i → column !! k = column0 !! i.

(** No column holds a missing value. *)
Definition no_missing (df : DataFrame) : Prop :=
  Forall (λ c : string * list cell, complete c.2) (data df).

(** The name a column has after stage 4. *)
Definition new_name (name : string) : string :=
  if bool_decide (name = "DiscountApplied(%)") then "DiscountApplied" else name.

(** The frame after stages 4 and 5, given the frame after stage 3. *)
Definition pruned (df : DataFrame) : DataFrame :=
  {| index := index df;
     data := filter (λ c : string * list cell, c.1 ∉ cols_to_drop)
               (data (rename_discount df)) |}.

(** The rank of a value among the distinct values of a column: how many of
    them sort strictly before it. *)
Definition rank (v : cell) (y : list cell) : nat :=
  length (filter (λ t, cell_lt t v) (remove_dups y)).

(** The same for string labels, by lexicographic comparison. *)
Definition lexicographic_rank (s : string) (labels : list string) : nat :=
  length (filter (λ t, String.compare t s = Lt) (remove_dups labels)).

(** * Properties *)

Local Open Scope nat_scope.

(** ** The sorting order *)

Section order.
Lemma ascii_compare_refl a : Ascii.compare a a = Eq.
Proof. unfold Ascii.compare. apply N.compare_refl. Qed.

Lemma ascii_compare_trans a b c :
  Ascii.compare a b = Lt → Ascii.compare b c = Lt → Ascii.compare a c = Lt.
Proof.
  unfold Ascii.compare. rewrite !N.compare_lt_iff. apply N.lt_trans.
Qed.

Lemma string_compare_refl s : String.compare s s = Eq.
Proof. induction s as [|a s IH]; simpl; [done|]. by rewrite ascii_compare_refl. Qed.

Lemma string_compare_trans s1 s2 s3 :
  String.compare s1 s2 = Lt → String.compare s2 s3 = Lt →
  String.compare s1 s3 = Lt.
Proof.
  revert s2 s3. induction s1 as [|a s1 IH]; intros [|b s2] [|c s3]; simpl; try done.
  destruct (Ascii.compare a b) eqn:Hab; try done;
    destruct (Ascii.compare b c) eqn:Hbc; try done; intros H1 H2.
  - apply Ascii.compare_eq_iff in Hab, Hbc. subst.
    rewrite ascii_compare_refl. eauto.
  - apply Ascii.compare_eq_iff in Hab. subst. by rewrite Hbc.
  - apply Ascii.compare_eq_iff in Hbc. subst. by rewrite Hab.
  - by rewrite (ascii_compare_trans a b c).
Qed.

Lemma cell_compare_eq x y : cell_compare x y = Eq ↔ x = y.
Proof.
  split.
  - destruct x, y; simpl; try done; intros H.
    + f_equal. by apply String.compare_eq_iff.
    + by destruct b, b0.
    + f_equal. by apply Z.compare_eq.
    + f_equal. by apply Qceq_alt.
    + f_equal. by apply Z.compare_eq.
  - intros <-. destruct x; simpl; try done.
    + apply string_compare_refl.
    + by destruct b.
    + apply Z.compare_refl.
    + by apply Qceq_alt.
    + apply Z.compare_refl.
Qed.

Lemma cell_compare_antisym x y :
  cell_compare x y = CompOpp (cell_compare y x).
Proof.
  destruct x, y; simpl; try done.
  - apply String.compare_antisym.
  - by destruct b, b0.
  - apply Z.compare_antisym.
  - unfold Qccompare. by rewrite <-Qcompare_antisym.
  - apply Z.compare_antisym.
Qed.

Lemma cell_compare_trans x y z :
  cell_compare x y = Lt → cell_compare y z = Lt → cell_compare x z = Lt.
Proof.
  destruct x, y, z; simpl; try done.
  - apply string_compare_trans.
  - by destruct b, b0, b1.
  - rewrite !Z.compare_lt_iff. lia.
  - rewrite <-!Qclt_alt. apply Qclt_trans.
  - rewrite !Z.compare_lt_iff. lia.
Qed.

Lemma cell_le_lt x y : cell_le x y ↔ cell_lt x y ∨ x = y.
Proof.
  unfold cell_le, cell_lt. rewrite <-cell_compare_eq.
  destruct (cell_compare x y).
  - split; [auto | done].
  - split; [auto | done].
  - split; [done | by intros [?|?]].
Qed.

Lemma cell_lt_irrefl x : ¬ cell_lt x x.
Proof. unfold cell_lt. by rewrite (proj2 (cell_compare_eq x x) eq_refl). Qed.

Lemma cell_lt_asym x y : cell_lt x y → ¬ cell_lt y x.
Proof. unfold cell_lt. rewrite (cell_compare_antisym y x). by intros ->. Qed.

Global Instance cell_le_total : Total cell_le.
Proof.
  intros x y. unfold cell_le. rewrite (cell_compare_antisym y x).
  destruct (cell_compare x y); simpl; auto.
Qed.

Global Instance cell_le_trans : Transitive cell_le.
Proof.
  intros x y z. rewrite !cell_le_lt. intros [H1| ->] [H2| ->]; auto.
  left. by apply (cell_compare_trans x y z).
Qed.

Global Instance cell_le_antisym : AntiSymm (=) cell_le.
Proof.
  intros x y. rewrite !cell_le_lt. intros [H1| ->] [H2|H2]; auto.
  by destruct (cell_lt_asym x y).
Qed.
End order.

(** ** Boolean indexing *)

Section boolean_index.
Context {A B : Type}.
Implicit Types (keep : list bool) (l : list A).

Lemma boolean_index_nil_r keep : boolean_index keep (@nil A) = [].
Proof. by destruct keep. Qed.

Lemma boolean_index_fmap (f : A → B) keep l :
  boolean_index keep (f <$> l) = f <$> boolean_index keep l.
Proof.
  revert l. induction keep as [|b keep IH]; intros [|x l]; simpl; try done.
  destruct b; simpl; by rewrite IH.
Qed.

Lemma boolean_index_zip keep l (k : list B) :
  boolean_index keep (zip l k) = zip (boolean_index keep l) (boolean_index keep k).
Proof.
  revert l k. induction keep as [|b keep IH]; intros [|x l] [|y k]; simpl;
    rewrite ?zip_with_nil_r; try done.
  destruct b; simpl; by rewrite IH.
Qed.

Lemma boolean_index_length keep l :
  length keep = length l → length (boolean_index keep l) = count_true keep.
Proof.
  unfold count_true.
  revert l. induction keep as [|b keep IH]; intros [|x l]; simpl; try done.
  intros [= Hlen]. destruct b.
  - rewrite filter_cons_True by done. simpl. by rewrite IH.
  - rewrite filter_cons_False by done. by rewrite IH.
Qed.

Lemma boolean_index_filter (f : A → bool) l :
  boolean_index (f <$> l) l = filter (λ x, f x = true) l.
Proof.
  induction l as [|x l IH]; csimpl; [done|].
  destruct (f x) eqn:Hx.
  - rewrite filter_cons_True by done. by rewrite IH.
  - rewrite filter_cons_False by (by rewrite Hx). by rewrite IH.
Qed.

Lemma boolean_index_sublist keep l : boolean_index keep l `sublist_of` l.
Proof.
  revert l. induction keep as [|b keep IH]; intros [|x l]; simpl;
    try apply sublist_nil_l.
  destruct b; [apply sublist_skip | apply sublist_cons]; apply IH.
Qed.

Lemma boolean_index_elem_of keep l x : x ∈ boolean_index keep l → x ∈ l.
Proof. intros Hx. eapply elem_of_sublist; [done | apply boolean_index_sublist]. Qed.
End boolean_index.

(** ** Rows of a selection *)

Lemma cells_at_tail k (cols : list (list cell)) :
  cells_at k (tail <$> cols) = cells_at (S k) cols.
Proof.
  unfold cells_at. rewrite <-list_fmap_compose. apply list_fmap_ext.
  intros _ c _. simpl. by rewrite lookup_tail.
Qed.

Lemma transpose_S n (cols : list (list cell)) :
  (λ k, cells_at k cols) <$> seq 0 (S n)
  = cells_at 0 cols :: ((λ k, cells_at k (tail <$> cols)) <$> seq 0 n).
Proof.
  simpl. f_equal. rewrite <-fmap_S_seq, <-list_fmap_compose.
  apply list_fmap_ext. intros _ k _. simpl. by rewrite cells_at_tail.
Qed.

Lemma transpose_boolean_index keep (cols : list (list cell)) :
  Forall (λ c, length c = length keep) cols →
  (λ k, cells_at k (boolean_index keep <$> cols)) <$> seq 0 (count_true keep)
  = boolean_index keep ((λ k, cells_at k cols) <$> seq 0 (length keep)).
Proof.
  revert cols. induction keep as [|b keep IH]; intros cols Hlen; [done|].
  assert (Forall (λ c, length c = length keep) (tail <$> cols)) as Htl.
  { apply Forall_fmap. eapply Forall_impl; [done|].
    intros [|x c]; simpl; [done | congruence]. }
  change (length (b :: keep)) with (S (length keep)).
  rewrite transpose_S. simpl. rewrite <-(IH _ Htl).
  assert (boolean_index keep <$> (tail <$> cols)
          = (if b then tail else id) <$> (boolean_index (b :: keep) <$> cols)) as Hcols.
  { rewrite <-!list_fmap_compose. apply Forall_fmap_ext.
    eapply Forall_impl; [done|].
    intros [|x c]; simpl; [done|]. by destruct b. }
  unfold count_true. destruct b.
  - rewrite filter_cons_True by done.
    change (length (true :: ?l)) with (S (length l)).
    rewrite transpose_S. rewrite Hcols. f_equal.
    unfold cells_at. rewrite <-list_fmap_compose. apply Forall_fmap_ext.
    eapply Forall_impl; [done|]. by intros [|x c].
  - rewrite filter_cons_False by done. rewrite Hcols.
    by rewrite list_fmap_id.
Qed.

Lemma rows_select_rows keep df :
  rectangular df → length keep = length (index df) →
  rows (select_rows keep df) = boolean_index keep (rows df).
Proof.
  intros Hrect Hlen. unfold rows, row_at, select_rows. simpl.
  rewrite boolean_index_length by done.
  rewrite <-Hlen, <-transpose_boolean_index.
  - apply list_fmap_ext. intros _ k _. f_equal.
    rewrite <-!list_fmap_compose. by apply list_fmap_ext.
  - apply Forall_fmap. eapply Forall_impl; [done|]. simpl. congruence.
Qed.

Lemma select_rows_rectangular keep df :
  rectangular df → length keep = length (index df) →
  rectangular (select_rows keep df).
Proof.
  intros Hrect Hlen. unfold rectangular, select_rows. simpl.
  apply Forall_fmap. eapply Forall_impl; [done|]. simpl. intros c Hc.
  rewrite !boolean_index_length; congruence.
Qed.

Lemma length_rows df : length (rows df) = length (index df).
Proof. unfold rows. by rewrite length_fmap, length_seq. Qed.

Lemma length_duplicated_from seen rs :
  length (duplicated_from seen rs) = length rs.
Proof. revert seen. induction rs; intros; simpl; auto. Qed.

(** ** Which rows survive *)

Lemma elem_of_drop_duplicates_from seen (rs : list (list cell)) s i r :
  (i, r) ∈ boolean_index (negb <$> duplicated_from seen rs) (zip (seq s (length rs)) rs)
  ↔ s ≤ i ∧ rs !! (i - s) = Some r ∧ (r ∉ seen) ∧ ∀ j, j < i - s → rs !! j ≠ Some r.
Proof.
  revert seen s. induction rs as [|r0 rs IH]; intros seen s; simpl.
  { split; [by intros ?%elem_of_nil | by intros (_ & ? & _)]. }
  assert ((i, r) ∈ boolean_index (negb <$> duplicated_from (r0 :: seen) rs)
                     (zip (seq (S s) (length rs)) rs)
          ↔ S s ≤ i ∧ rs !! (i - S s) = Some r ∧ r ≠ r0 ∧ (r ∉ seen)
            ∧ ∀ j, j < i - S s → rs !! j ≠ Some r) as IH'.
  { rewrite IH, not_elem_of_cons. tauto. }
  clear IH.
  assert (i = s ∨ S s ≤ i ∨ i < s) as [->|[Hi|Hi]] by lia.
  - replace (s - s) with 0 by lia. simpl.
    case_bool_decide as Hseen; simpl.
    + rewrite IH'. split; [lia|]. intros (_ & [= <-] & ? & _). done.
    + rewrite elem_of_cons, IH'. split.
      * intros [[= <-]|?]; [|lia]. split_and!; auto. intros j ?. lia.
      * intros (_ & [= <-] & _). by left.
  - replace (i - s) with (S (i - S s)) by lia. simpl.
    assert (((i, r) ∈ boolean_index (negb <$> duplicated_from (r0 :: seen) rs)
                        (zip (seq (S s) (length rs)) rs))
            ↔ s ≤ i ∧ rs !! (i - S s) = Some r ∧ (r ∉ seen)
              ∧ ∀ j, j < S (i - S s) → (r0 :: rs) !! j ≠ Some r) as Hrest.
    { rewrite IH'. split.
      - intros (_ & Hr & Hne & Hseen & Hfirst). split_and!; auto; [lia|].
        intros [|j] Hj; simpl; [congruence|]. apply Hfirst. lia.
      - intros (_ & Hr & Hseen & Hfirst). split_and!; auto.
        + intros ->. by apply (Hfirst 0); [lia|].
        + intros j Hj. apply (Hfirst (S j)). lia. }
    case_bool_decide; simpl; [done|].
    rewrite elem_of_cons, Hrest. split; [|by right].
    intros [[= -> _]|?]; [lia | done].
  - case_bool_decide; simpl; rewrite ?elem_of_cons, IH'; split; try lia.
    intros [[= -> _]|?]; lia.
Qed.

Lemma lookup_rows df i :
  i < length (index df) → rows df !! i = Some (row_at df i).
Proof.
  intros Hi. unfold rows. rewrite list_lookup_fmap, lookup_seq_lt by done. done.
Qed.

Section surviving.
Variable df : DataFrame.
Hypothesis Hrect : rectangular df.
Hypothesis Hindex : index df = seq 0 (length (index df)).

Lemma drop_duplicates_rectangular : rectangular (drop_duplicates df).
Proof.
  apply select_rows_rectangular; [done|].
  unfold duplicated.
  by rewrite length_fmap, length_duplicated_from, length_rows.
Qed.

Lemma surviving_rectangular : rectangular (surviving df).
Proof.
  apply select_rows_rectangular; [apply drop_duplicates_rectangular|].
  by rewrite length_fmap, length_rows.
Qed.

Lemma rows_surviving :
  rows (surviving df)
  = filter (λ r, existsb isnull r = false)
      (boolean_index (negb <$> duplicated df) (rows df)).
Proof.
  unfold surviving, dropna.
  rewrite rows_select_rows;
    [|apply drop_duplicates_rectangular|by rewrite length_fmap, length_rows].
  rewrite boolean_index_filter.
  assert (rows (drop_duplicates df)
          = boolean_index (negb <$> duplicated df) (rows df)) as ->.
  { apply rows_select_rows; [done|]. unfold duplicated.
    by rewrite length_fmap, length_duplicated_from, length_rows. }
  apply list_filter_iff. intros r. by destruct (existsb isnull r).
Qed.

Lemma labelled_surviving :
  zip (index (surviving df)) (rows (surviving df))
  = filter (λ p : nat * list cell, existsb isnull p.2 = false)
      (boolean_index (negb <$> duplicated df) (zip (index df) (rows df))).
Proof.
  assert (length (negb <$> duplicated df) = length (index df)) as Hlen.
  { unfold duplicated.
    by rewrite length_fmap, length_duplicated_from, length_rows. }
  pose proof drop_duplicates_rectangular as Hrect'.
  unfold surviving, dropna.
  rewrite rows_select_rows; [|done|by rewrite length_fmap, length_rows].
  unfold select_rows at 1. simpl. rewrite <-boolean_index_zip.
  set (l := zip _ _).
  assert (rows (drop_duplicates df) = l.*2) as ->.
  { unfold l. rewrite snd_zip; [done|]. by rewrite length_rows. }
  rewrite <-list_fmap_compose, boolean_index_filter.
  unfold l, drop_duplicates. rewrite rows_select_rows by done.
  unfold select_rows. simpl. rewrite <-boolean_index_zip.
  apply list_filter_iff. intros p. simpl. by destruct (existsb isnull p.2).
Qed.

Lemma length_index_surviving :
  length (index (surviving df)) = length (rows (surviving df)).
Proof. by rewrite length_rows. Qed.

Lemma existsb_isnull_complete r : existsb isnull r = false ↔ complete r.
Proof.
  unfold complete. induction r as [|v r IH]; simpl.
  - split; [constructor | done].
  - rewrite orb_false_iff, Forall_cons. by rewrite IH.
Qed.

Lemma elem_of_index_surviving i :
  i ∈ index (surviving df)
  ↔ i < length (index df) ∧ complete (row_at df i)
    ∧ ∀ j, j < i → row_at df j ≠ row_at df i.
Proof.
  assert (i ∈ index (surviving df)
          ↔ ∃ r, (i, r) ∈ zip (index (surviving df)) (rows (surviving df))) as ->.
  { rewrite <-(fst_zip (index (surviving df)) (rows (surviving df)))
      at 1 by (by rewrite length_rows).
    rewrite list_elem_of_fmap. split.
    - intros ([i' r] & -> & ?). by exists r.
    - intros (r & ?). by exists (i, r). }
  rewrite labelled_surviving. unfold duplicated.
  rewrite Hindex, <-(length_rows df).
  setoid_rewrite list_elem_of_filter.
  setoid_rewrite elem_of_drop_duplicates_from.
  rewrite length_rows. simpl. setoid_rewrite existsb_isnull_complete.
  rewrite ?length_seq. replace (i - 0) with i by lia. split.
  - intros (r & Hr & _ & Hi & _ & Hfirst).
    assert (i < length (index df)) as Hlt.
    { rewrite <-length_rows. by eapply lookup_lt_Some. }
    rewrite lookup_rows in Hi by done. injection Hi as <-.
    split_and!; auto. intros j Hj Heq. apply (Hfirst j Hj).
    rewrite lookup_rows by lia. by rewrite Heq.
  - intros (Hlt & Hr & Hfirst). exists (row_at df i).
    split_and!; auto; [lia|by apply lookup_rows|by intros ?%elem_of_nil|].
    intros j Hj. rewrite lookup_rows by lia. intros [= ?]. by apply (Hfirst j).
Qed.

Lemma NoDup_index_surviving : NoDup (index (surviving df)).
Proof.
  unfold surviving, dropna, drop_duplicates, select_rows. simpl.
  eapply sublist_NoDup; [|apply boolean_index_sublist].
  eapply sublist_NoDup; [|apply boolean_index_sublist].
  rewrite Hindex. apply NoDup_seq.
Qed.
End surviving.

(** ** Results and traversals *)

Lemma bind_Ok {A B} (f : A → result B) (r : result A) b :
  r ≫= f = Ok b ↔ ∃ a, r = Ok a ∧ f a = Ok b.
Proof.
  destruct r as [a|e]; simpl; split.
  - intros ?. by exists a.
  - by intros (? & [= <-] & ?).
  - done.
  - by intros (? & ? & _).
Qed.

Lemma traverse_Ok {A B} (f : A → result B) l l' :
  traverse f l = Ok l' ↔ Forall2 (λ x y, f x = Ok y) l l'.
Proof.
  revert l'. induction l as [|x l IH]; intros l'; simpl.
  - split; [intros [= <-]; constructor | by intros ->%Forall2_nil_inv_l].
  - rewrite bind_Ok. split.
    + intros (y & Hy & (ys & Hys & [= <-])%bind_Ok).
      constructor; [done | by apply IH].
    + intros (y & ys & Hy & Hys & ->)%Forall2_cons_inv_l.
      exists y. split; [done|]. apply bind_Ok. exists ys. by rewrite IH.
Qed.

Lemma traverse_Ok_length {A B} (f : A → result B) l l' :
  traverse f l = Ok l' → length l' = length l.
Proof. intros ?%traverse_Ok. symmetry. by eapply Forall2_length. Qed.

Lemma traverse_Error {A B} (f : A → result B) l x e :
  (∀ y e', f y = Error e' → e' = e) →
  x ∈ l → f x = Error e → traverse f l = Error e.
Proof.
  intros Hf. induction l as [|y l IH]; [by intros ?%elem_of_nil|].
  intros [->|Hx]%elem_of_cons Hfx; simpl.
  - by rewrite Hfx.
  - destruct (f y) as [z|e'] eqn:Hy; simpl; [|by rewrite (Hf _ _ Hy)].
    by rewrite IH.
Qed.

Lemma traverse_total {A B} (f : A → result B) l :
  Forall (λ x, ∃ y, f x = Ok y) l → ∃ l', traverse f l = Ok l'.
Proof.
  induction 1 as [|x l [y Hy] _ [ys Hys]]; simpl; [by eexists|].
  rewrite Hy. simpl. rewrite Hys. simpl. by eexists.
Qed.

(** ** Columns *)

Lemma columns_replace_column label values df :
  columns (replace_column label values df) = columns df.
Proof.
  unfold columns, replace_column. simpl. rewrite <-list_fmap_compose.
  apply list_fmap_ext. intros _ c _. simpl. by case_bool_decide.
Qed.

Lemma elem_of_replace_column label values df name col :
  name ≠ label →
  (name, col) ∈ data df → (name, col) ∈ data (replace_column label values df).
Proof.
  intros Hne Hin. unfold replace_column. simpl. apply list_elem_of_fmap.
  exists (name, col). split; [|done]. simpl. by rewrite bool_decide_eq_false_2.
Qed.

Lemma find_column_Some label cols col :
  find_column label cols = Some col → (label, col) ∈ cols.
Proof.
  induction cols as [|[n c] cols IH]; simpl; [done|].
  case_bool_decide as Hn; simpl in Hn.
  - intros [= <-]. subst. by left.
  - intros ?. right. auto.
Qed.

Lemma find_column_is_Some label cols :
  is_Some (find_column label cols) ↔ label ∈ cols.*1.
Proof.
  induction cols as [|[n c] cols IH]; simpl.
  - split; [by intros [? ?] | by intros ?%elem_of_nil].
  - rewrite elem_of_cons. case_bool_decide as Hn; simpl in Hn.
    + split; [by left | by eexists].
    + rewrite IH. split; [by right | by intros [->|?]].
Qed.

Lemma getitem_Ok label df col :
  getitem label df = Ok col ↔ find_column label (data df) = Some col.
Proof.
  unfold getitem. destruct (find_column label (data df)); simpl;
    split; congruence.
Qed.

Lemma getitem_present label df :
  label ∈ columns df → ∃ col, getitem label df = Ok col.
Proof.
  intros [col Hcol]%find_column_is_Some. exists col. by apply getitem_Ok.
Qed.

Lemma find_column_fmap_other label (h : string * list cell → string * list cell) cols :
  Forall (λ c, ((h c).1 = label ↔ c.1 = label) ∧ (c.1 = label → (h c).2 = c.2)) cols →
  find_column label (h <$> cols) = find_column label cols.
Proof.
  induction 1 as [|c cols [Hname Hval] _ IH]; csimpl; [done|].
  rewrite IH. do 2 case_bool_decide; try tauto. by rewrite Hval.
Qed.

Lemma find_column_filter label (P : string * list cell → Prop)
    `{!∀ c, Decision (P c)} cols :
  (∀ c, c.1 = label → P c) →
  find_column label (filter P cols) = find_column label cols.
Proof.
  intros HP. induction cols as [|c cols IH]; [done|].
  rewrite filter_cons. simpl. case_decide as Hc; simpl.
  - by rewrite IH.
  - case_bool_decide; [|done]. destruct Hc. by apply HP.
Qed.

Lemma getitem_replace_column_eq label values df :
  label ∈ columns df → getitem label (replace_column label values df) = Ok values.
Proof.
  unfold getitem, replace_column, columns. simpl.
  induction (data df) as [|[n c] cols IH]; csimpl; [by intros ?%elem_of_nil|].
  intros Hin. destruct (decide (n = label)) as [->|Hn].
  - rewrite !(bool_decide_eq_true_2 (label = label)) by done. simpl.
    by rewrite ?(bool_decide_eq_true_2 (label = label)) by done.
  - rewrite !(bool_decide_eq_false_2 (n = label)) by done. simpl.
    rewrite ?(bool_decide_eq_false_2 (n = label)) by done. apply IH.
    apply elem_of_cons in Hin as [->|?]; done.
Qed.

Lemma getitem_replace_column_ne label label' values df :
  label' ≠ label →
  getitem label' (replace_column label values df) = getitem label' df.
Proof.
  intros Hne. unfold getitem, replace_column. simpl. f_equal.
  apply find_column_fmap_other, Forall_forall. intros c _.
  case_bool_decide; simpl; (split; [done|]); congruence.
Qed.

Lemma replace_column_rectangular label values df :
  length values = length (index df) → rectangular df →
  rectangular (replace_column label values df).
Proof.
  intros Hlen Hrect. unfold rectangular, replace_column. simpl.
  apply Forall_fmap. eapply Forall_impl; [done|]. simpl. intros c Hc.
  by case_bool_decide.
Qed.

Lemma setitem_Ok label values df df' :
  label ∈ columns df → setitem label values df = Ok df' →
  length values = length (index df) ∧ df' = replace_column label values df.
Proof.
  intros Hin. unfold setitem. case_bool_decide; [|done].
  rewrite bool_decide_eq_true_2 by done. by intros [= <-].
Qed.

Lemma setitem_present label values df :
  label ∈ columns df → length values = length (index df) →
  setitem label values df = Ok (replace_column label values df).
Proof. intros. unfold setitem. by rewrite !bool_decide_eq_true_2. Qed.

(** ** Label encoding *)

Lemma filter_none {A} (P : A → Prop) `{!∀ x, Decision (P x)} (l : list A) :
  Forall (λ x, ¬ P x) l → filter P l = [].
Proof.
  induction 1 as [|x l Hx _ IH]; [done|]. by rewrite filter_cons_False.
Qed.

Lemma sorted_position l i v :
  StronglySorted cell_le l → NoDup l → l !! i = Some v →
  length (filter (λ t, cell_lt t v) l) = i.
Proof.
  intros Hsorted. revert i.
  induction Hsorted as [|x l Hsorted IH Hle]; intros i Hdup Hi; [done|].
  apply NoDup_cons in Hdup as [Hx Hdup]. destruct i as [|i]; simpl in Hi.
  - injection Hi as ->. rewrite filter_cons_False by apply cell_lt_irrefl.
    rewrite filter_none; [done|]. eapply Forall_impl; [done|]. simpl.
    intros t [Hlt| ->]%cell_le_lt; [by apply cell_lt_asym | apply cell_lt_irrefl].
  - assert (cell_lt x v) as Hlt.
    { rewrite Forall_forall in Hle.
      destruct (proj1 (cell_le_lt x v)) as [?| ->]; [|done|].
      - apply Hle. by eapply list_elem_of_lookup_2.
      - destruct Hx. by eapply list_elem_of_lookup_2. }
    rewrite filter_cons_True by done. simpl. f_equal. by apply IH.
Qed.

Section classes.
Variable y : list cell.
Let classes := merge_sort cell_le (remove_dups y).

Lemma classes_Permutation : classes ≡ₚ remove_dups y.
Proof. apply merge_sort_Permutation. Qed.

Lemma elem_of_classes v : v ∈ classes ↔ v ∈ y.
Proof. by rewrite classes_Permutation, elem_of_remove_dups. Qed.

Lemma NoDup_classes : NoDup classes.
Proof. rewrite classes_Permutation. apply NoDup_remove_dups. Qed.

Lemma classes_sorted : StronglySorted cell_le classes.
Proof. apply StronglySorted_merge_sort; apply _. Qed.

Lemma length_classes : length classes = length (remove_dups y).
Proof. by rewrite classes_Permutation. Qed.

Lemma rank_classes v :
  rank v y = length (filter (λ t, cell_lt t v) classes).
Proof. unfold rank. by rewrite classes_Permutation. Qed.

Lemma lookup_classes_rank i v : classes !! i = Some v → rank v y = i.
Proof.
  intros Hi. rewrite rank_classes.
  by apply sorted_position; [apply classes_sorted | apply NoDup_classes|].
Qed.

Lemma lookup_rank v : v ∈ y → classes !! rank v y = Some v.
Proof.
  intros (i & Hi)%elem_of_classes%list_elem_of_lookup_1.
  by rewrite (lookup_classes_rank i v).
Qed.

Lemma rank_lt v : v ∈ y → rank v y < length (remove_dups y).
Proof.
  intros Hv%lookup_rank%lookup_lt_Some. by rewrite <-length_classes.
Qed.

Lemma rank_inj v v' : v ∈ y → v' ∈ y → rank v y = rank v' y → v = v'.
Proof.
  intros Hv%lookup_rank Hv'%lookup_rank Heq. rewrite Heq in Hv. congruence.
Qed.

Lemma rank_surj i : i < length (remove_dups y) → ∃ v, v ∈ y ∧ rank v y = i.
Proof.
  rewrite <-length_classes. intros [v Hv]%lookup_lt_is_Some_2. exists v. split.
  - apply elem_of_classes. by eapply list_elem_of_lookup_2.
  - by apply lookup_classes_rank.
Qed.

Lemma encode_classes v :
  v ∈ y → encode classes v = Ok (Int (Z.of_nat (rank v y))).
Proof.
  intros Hv. unfold encode.
  destruct (list_find (eq v) classes) as [[i v']|] eqn:Hfind; simpl.
  - apply list_find_Some in Hfind as (Hi & <- & _).
    by rewrite (lookup_classes_rank i v).
  - apply list_find_None in Hfind. rewrite Forall_forall in Hfind.
    destruct (Hfind v); [|done]. by apply elem_of_classes.
Qed.

Lemma transform_classes :
  transform {| classes_ := classes |} y
  = Ok ((λ v, Int (Z.of_nat (rank v y))) <$> y).
Proof.
  unfold transform. simpl. apply traverse_Ok, Forall2_fmap_r, Forall_Forall2_diag.
  apply Forall_forall. intros v Hv. by apply encode_classes.
Qed.

Lemma fit_transform_eq :
  fit_transform y
  = if uniform y
    then Ok ({| classes_ := classes |}, (λ v, Int (Z.of_nat (rank v y))) <$> y)
    else Error TypeError.
Proof.
  unfold fit_transform, fit. destruct (uniform y); [|done]. simpl.
  fold classes. by rewrite transform_classes.
Qed.
End classes.

Lemma length_remove_dups_fmap {A B} `{EqDecision A, EqDecision B}
    (f : A → B) (l : list A) :
  (∀ x x', x ∈ l → x' ∈ l → f x = f x' → x = x') →
  length (remove_dups (f <$> l)) = length (remove_dups l).
Proof.
  intros Hinj. rewrite <-(length_fmap f (remove_dups l)).
  apply Permutation_length, NoDup_Permutation.
  - apply NoDup_remove_dups.
  - apply NoDup_fmap_2_strong; [|apply NoDup_remove_dups].
    intros x x'. rewrite !elem_of_remove_dups. apply Hinj.
  - intros b. rewrite elem_of_remove_dups, !list_elem_of_fmap.
    by setoid_rewrite elem_of_remove_dups.
Qed.

Lemma remove_dups_fmap_inj {A B} `{EqDecision A, EqDecision B}
    (f : A → B) `{!Inj (=) (=) f} (l : list A) :
  remove_dups (f <$> l) = f <$> remove_dups l.
Proof.
  induction l as [|x l IH]; csimpl; [done|].
  rewrite IH.
  destruct (decide_rel _ x l) as [Hx|Hx],
    (decide_rel _ (f x) (f <$> l)) as [Hfx|Hfx]; try done.
  - destruct Hfx. by apply list_elem_of_fmap_2.
  - destruct Hx. by apply (list_elem_of_fmap_inj_2 f).
Qed.

Lemma length_filter_fmap {A B} (f : A → B) (P : B → Prop)
    `{!∀ b, Decision (P b)} (l : list A) :
  length (filter P (f <$> l)) = length (filter (P ∘ f) l).
Proof.
  induction l as [|x l IH]; csimpl; [done|].
  rewrite !filter_cons. simpl. destruct (decide (P (f x))); simpl; by rewrite IH.
Qed.

Global Instance Str_inj : Inj (=) (=) Str.
Proof. by intros s1 s2 [= ->]. Qed.

Lemma rank_Str s labels :
  rank (Str s) (Str <$> labels) = lexicographic_rank s labels.
Proof.
  unfold rank, lexicographic_rank.
  rewrite (remove_dups_fmap_inj Str), length_filter_fmap. f_equal.
Qed.

(** ** The stages *)

Lemma filter_ext_elem_of {A} (P Q : A → Prop)
    `{!∀ x, Decision (P x), !∀ x, Decision (Q x)} (l : list A) :
  (∀ x, x ∈ l → P x ↔ Q x) → filter P l = filter Q l.
Proof.
  induction l as [|x l IH]; intros Hext; [done|].
  rewrite !filter_cons, IH by (intros; apply Hext; by right).
  destruct (decide (P x)) as [HP|HP], (decide (Q x)) as [HQ|HQ]; try done.
  - destruct HQ. apply Hext; [by left | done].
  - destruct HP. apply Hext; [by left | done].
Qed.

Lemma filter_all {A} (P : A → Prop) `{!∀ x, Decision (P x)} (l : list A) :
  Forall P l → filter P l = l.
Proof.
  induction 1 as [|x l Hx _ IH]; [done|]. by rewrite filter_cons_True, IH.
Qed.

Lemma to_datetime_length parse col dates :
  to_datetime parse col = Ok dates → length dates = length col.
Proof. apply traverse_Ok_length. Qed.

Lemma convert_transaction_date_inv parse df df' :
  convert_transaction_date parse df = Ok df' →
  (("TransactionDate" ∉ columns df) ∧ df' = df)
  ∨ ∃ col dates,
      "TransactionDate" ∈ columns df ∧
      getitem "TransactionDate" df = Ok col ∧
      to_datetime parse col = Ok dates ∧
      length dates = length (index df) ∧
      df' = replace_column "TransactionDate" dates df.
Proof.
  unfold convert_transaction_date. case_bool_decide as Hin.
  - intros (col & Hcol & (dates & Hdates & Hset)%bind_Ok)%bind_Ok.
    apply setitem_Ok in Hset as [Hlen ->]; [|done].
    right. by exists col, dates.
  - intros [= <-]. by left.
Qed.

Lemma new_name_lookup name :
  default name (({[ "DiscountApplied(%)" := "DiscountApplied" ]} : gmap string string) !! name)
  = new_name name.
Proof.
  unfold new_name. case_bool_decide as Hn.
  - subst. by rewrite lookup_singleton_eq.
  - by rewrite lookup_singleton_ne.
Qed.

Lemma data_rename_discount df :
  data (rename_discount df)
  = (λ c : string * list cell, (new_name c.1, c.2)) <$> data df.
Proof.
  unfold rename_discount, rename. simpl. apply list_fmap_ext.
  intros _ c _. simpl. by rewrite new_name_lookup.
Qed.

Lemma columns_rename_discount df :
  columns (rename_discount df) = new_name <$> columns df.
Proof.
  unfold columns. rewrite data_rename_discount, <-!list_fmap_compose.
  by apply list_fmap_ext.
Qed.

Lemma drop_existing labels df :
  Forall (λ l, l ∈ columns df) labels →
  drop labels df
  = Ok {| index := index df;
          data := filter (λ c : string * list cell, c.1 ∉ labels) (data df) |}.
Proof.
  intros Hall. unfold drop.
  destruct (list_find _ labels) as [[i l]|] eqn:Hfind; [|done].
  apply list_find_Some in Hfind as (Hl%list_elem_of_lookup_2 & Hnot & _).
  rewrite Forall_forall in Hall. destruct Hnot. by apply Hall.
Qed.

Lemma drop_unneeded_eq df :
  drop_unneeded df
  = Ok {| index := index df;
          data := filter (λ c : string * list cell, c.1 ∉ cols_to_drop) (data df) |}.
Proof.
  unfold drop_unneeded.
  set (existing := filter (λ c, c ∈ columns df) cols_to_drop).
  assert (filter (λ c : string * list cell, c.1 ∉ existing) (data df)
          = filter (λ c : string * list cell, c.1 ∉ cols_to_drop) (data df)) as Hfilter.
  { apply filter_ext_elem_of. intros c Hc. unfold existing.
    rewrite list_elem_of_filter.
    assert (c.1 ∈ columns df) by (by apply list_elem_of_fmap_2).
    tauto. }
  case_bool_decide as Hex.
  - rewrite drop_existing, Hfilter; [done|].
    apply Forall_forall. intros l. unfold existing.
    rewrite list_elem_of_filter. tauto.
  - rewrite <-Hfilter, Hex.
    rewrite filter_all; [by destruct df|].
    apply Forall_forall. intros c _. apply not_elem_of_nil.
Qed.

Lemma encode_column_inv label df df' :
  encode_column label df = Ok df' →
  ((label ∉ columns df) ∧ df' = df)
  ∨ ∃ col,
      label ∈ columns df ∧
      getitem label df = Ok col ∧
      uniform col = true ∧
      length col = length (index df) ∧
      df' = replace_column label ((λ v, Int (Z.of_nat (rank v col))) <$> col) df.
Proof.
  unfold encode_column. case_bool_decide as Hin.
  - intros (col & Hcol & (fitted & Hfit & Hset)%bind_Ok)%bind_Ok.
    rewrite fit_transform_eq in Hfit. destruct (uniform col) eqn:Hu; [|done].
    injection Hfit as <-. simpl in Hset.
    apply setitem_Ok in Hset as [Hlen ->]; [|done].
    rewrite length_fmap in Hlen. right. by exists col.
  - intros [= <-]. by left.
Qed.

Lemma cleaned_inv parse df df' :
  cleaned parse df = Ok df' →
  ∃ d1 d2,
    convert_transaction_date parse (surviving df) = Ok d1 ∧
    encode_column "PaymentMethod" (pruned d1) = Ok d2 ∧
    encode_column "ProductCategory" d2 = Ok df'.
Proof.
  unfold cleaned.
  intros (d1 & Hd1 & (d3 & Hd3 & (d2 & Hd2 & Hdf')%bind_Ok)%bind_Ok)%bind_Ok.
  rewrite drop_unneeded_eq in Hd3. injection Hd3 as <-.
  by exists d1, d2.
Qed.

(** ** What the stages keep *)


Lemma columns_select_rows keep df : columns (select_rows keep df) = columns df.
Proof.
  unfold columns, select_rows. simpl. rewrite <-list_fmap_compose.
  by apply list_fmap_ext.
Qed.

Lemma columns_surviving df : columns (surviving df) = columns df.
Proof. unfold surviving, dropna, drop_duplicates. by rewrite !columns_select_rows. Qed.

Lemma filter_fmap {A B} (f : A → B) (P : B → Prop)
    `{!∀ b, Decision (P b)} (l : list A) :
  filter P (f <$> l) = f <$> filter (P ∘ f) l.
Proof.
  induction l as [|x l IH]; [done|]. csimpl.
  rewrite !filter_cons. simpl. destruct (decide (P (f x))); csimpl; by rewrite IH.
Qed.

Lemma columns_pruned df :
  columns (pruned df) = filter (λ n, n ∉ cols_to_drop) (new_name <$> columns df).
Proof.
  rewrite <-columns_rename_discount. unfold columns, pruned. cbn [data].
  by rewrite (filter_fmap fst).
Qed.

Section cleaned.
Variable parse : list cell → cell → option cell.
Variables df df' : DataFrame.
Hypothesis Hclean : cleaned parse df = Ok df'.

Lemma cleaned_index : index df' = index (surviving df).
Proof using Hclean.
  apply cleaned_inv in Hclean as (d1 & d2 & H1 & H2 & H3).
  apply convert_transaction_date_inv in H1 as [[_ ->]|(? & ? & _ & _ & _ & _ & ->)];
    apply encode_column_inv in H2 as [[_ ->]|(? & _ & _ & _ & _ & ->)];
    apply encode_column_inv in H3 as [[_ ->]|(? & _ & _ & _ & _ & ->)]; done.
Qed.

Lemma cleaned_columns :
  columns df' = filter (λ n, n ∉ cols_to_drop) (new_name <$> columns df).
Proof using Hclean.
  apply cleaned_inv in Hclean as (d1 & d2 & H1 & H2 & H3).
  rewrite <-(columns_surviving df).
  apply convert_transaction_date_inv in H1 as [[_ ->]|(? & ? & _ & _ & _ & _ & ->)];
    apply encode_column_inv in H2 as [[_ ->]|(? & _ & _ & _ & _ & ->)];
    apply encode_column_inv in H3 as [[_ ->]|(? & _ & _ & _ & _ & ->)];
    by rewrite ?columns_replace_column, columns_pruned, ?columns_replace_column.
Qed.

Lemma cleaned_keeps name col :
  (name, col) ∈ data (surviving df) →
  name ≠ "TransactionDate" →
  new_name name ∉ cols_to_drop →
  new_name name ≠ "PaymentMethod" → new_name name ≠ "ProductCategory" →
  (new_name name, col) ∈ data df'.
Proof using Hclean.
  intros Hin Hdate Hdrop Hpay Hcat.
  apply cleaned_inv in Hclean as (d1 & d2 & H1 & H2 & H3).
  assert ((name, col) ∈ data d1) as Hin1.
  { apply convert_transaction_date_inv in H1 as [[_ ->]|(? & ? & _ & _ & _ & _ & ->)];
      [done | by apply elem_of_replace_column]. }
  assert ((new_name name, col) ∈ data (pruned d1)) as Hin2.
  { unfold pruned. cbn [data]. apply list_elem_of_filter. split; [done|].
    rewrite data_rename_discount. apply list_elem_of_fmap. by exists (name, col). }
  assert ((new_name name, col) ∈ data d2) as Hin3.
  { apply encode_column_inv in H2 as [[_ ->]|(? & _ & _ & _ & _ & ->)];
      [done | by apply elem_of_replace_column]. }
  apply encode_column_inv in H3 as [[_ ->]|(? & _ & _ & _ & _ & ->)];
    [done | by apply elem_of_replace_column].
Qed.

Lemma getitem_pruned label d :
  label ≠ "TransactionDate" → label ≠ "DiscountApplied(%)" →
  label ≠ "DiscountApplied" → label ∉ cols_to_drop →
  convert_transaction_date parse (surviving df) = Ok d →
  getitem label (pruned d) = getitem label (surviving df).
Proof.
  intros Hdate Hold Hnew Hdrop H1. unfold getitem at 1, pruned. cbn [data].
  rewrite find_column_filter by (by intros c ->).
  rewrite data_rename_discount, find_column_fmap_other.
  - apply convert_transaction_date_inv in H1 as [[_ ->]|(? & ? & _ & _ & _ & _ & ->)];
      [done | by apply getitem_replace_column_ne].
  - apply Forall_forall. intros c _. simpl. split; [|done].
    unfold new_name. case_bool_decide; split; congruence.
Qed.

Lemma cleaned_encoded label :
  label = "PaymentMethod" ∨ label = "ProductCategory" →
  label ∈ columns df →
  ∃ col,
    getitem label (surviving df) = Ok col ∧
    uniform col = true ∧
    length col = length (index (surviving df)) ∧
    getitem label df' = Ok ((λ v, Int (Z.of_nat (rank v col))) <$> col).
Proof using Hclean.
  intros Hlabel Hin.
  pose proof cleaned_columns as Hcols.
  apply cleaned_inv in Hclean as (d1 & d2 & H1 & H2 & H3).
  assert (index d1 = index (surviving df)) as Hidx.
  { by apply convert_transaction_date_inv in H1 as [[_ ->]|(? & ? & _ & _ & _ & _ & ->)]. }
  assert (label ∈ columns (pruned d1)) as Hin1.
  { assert (columns (pruned d1) = columns df') as ->.
    { apply encode_column_inv in H2 as [[_ ->]|(? & _ & _ & _ & _ & ->)];
        apply encode_column_inv in H3 as [[_ ->]|(? & _ & _ & _ & _ & ->)];
        by rewrite ?columns_replace_column. }
    rewrite Hcols. apply list_elem_of_filter. split.
    - unfold cols_to_drop. rewrite !elem_of_cons, elem_of_nil.
      destruct Hlabel as [-> | ->]; by intros [?|[?|?]].
    - apply list_elem_of_fmap. exists label. split; [|done].
      unfold new_name. rewrite bool_decide_eq_false_2; [done|].
      destruct Hlabel as [-> | ->]; done. }
  assert (getitem label (pruned d1) = getitem label (surviving df)) as Hget.
  { apply getitem_pruned; try done;
      try (destruct Hlabel as [-> | ->]; done).
    unfold cols_to_drop. rewrite !elem_of_cons, elem_of_nil.
    destruct Hlabel as [-> | ->]; by intros [?|[?|?]]. }
  destruct Hlabel as [-> | ->].
  - apply encode_column_inv in H2 as [[? _]|(col & _ & Hcol & Hu & Hlen & ->)]; [done|].
    exists col. rewrite <-Hget. split_and!; auto; [by rewrite <-Hidx|].
    apply encode_column_inv in H3 as [[_ ->]|(? & _ & _ & _ & _ & ->)].
    + by apply getitem_replace_column_eq.
    + rewrite getitem_replace_column_ne by done.
      by apply getitem_replace_column_eq.
  - assert (getitem "ProductCategory" d2 = getitem "ProductCategory" (pruned d1)
            ∧ "ProductCategory" ∈ columns d2 ∧ index d2 = index d1) as (Hget2 & Hin2 & Hidx2).
    { apply encode_column_inv in H2 as [[_ ->]|(? & _ & _ & _ & _ & ->)]; [done|].
      by rewrite getitem_replace_column_ne, columns_replace_column. }
    apply encode_column_inv in H3 as [[? _]|(col & _ & Hcol & Hu & Hlen & ->)]; [done|].
    exists col. rewrite <-Hget, <-Hget2. split_and!; auto; [congruence|].
    by apply getitem_replace_column_eq.
Qed.
End cleaned.

(** ** A run of the function *)

Lemma preprocess_run parse input_path output_path verbose w f :
  files w !! input_path = Some f →
  preprocess_transaction_data parse input_path output_path verbose w
  = let log := if verbose then progress input_path f else [] in
    match parse_csv f ≫= cleaned parse with
    | Ok df' =>
        (Ok output_path,
         {| files := <[output_path := render_csv df']> (files w);
            stdout := stdout w ++ log |})
    | Error e => (Error e, {| files := files w; stdout := stdout w ++ log |})
    end.
Proof.
  intros Hf. destruct w as [fs out]. simpl in Hf.
  unfold preprocess_transaction_data, progress, cleaned, surviving.
  unfold mbind, io_bind, path_exists, read_csv, when, print, lift, to_csv, mret, io_ret.
  simpl. rewrite Hf. rewrite bool_decide_eq_true_2 by eauto. simpl.
  destruct verbose; simpl; rewrite ?Hf; simpl.
  - destruct (parse_csv f) as [df|e]; simpl; [|done].
    rewrite <-!app_assoc. simpl.
    destruct (convert_transaction_date parse _) as [d1|e]; simpl; [|done].
    destruct (drop_unneeded _) as [d2|e]; simpl; [|done].
    destruct (encode_column "PaymentMethod" _) as [d3|e]; simpl; [|done].
    by destruct (encode_column "ProductCategory" _) as [d4|e].
  - rewrite app_nil_r.
    destruct (parse_csv f) as [df|e]; simpl; [|done].
    destruct (convert_transaction_date parse _) as [d1|e]; simpl; [|done].
    destruct (drop_unneeded _) as [d2|e]; simpl; [|done].
    destruct (encode_column "PaymentMethod" _) as [d3|e]; simpl; [|done].
    by destruct (encode_column "ProductCategory" _) as [d4|e].
Qed.

Lemma preprocess_missing parse input_path output_path verbose w :
  files w !! input_path = None →
  preprocess_transaction_data parse input_path output_path verbose w
  = (Error (FileNotFoundError input_path), w).
Proof.
  intros Hf. unfold preprocess_transaction_data.
  unfold mbind, io_bind, path_exists, raise. simpl. rewrite Hf.
  rewrite bool_decide_eq_false_2; [done|]. by intros [? ?].
Qed.

(** ** Frames as loaded *)

Lemma frame_of_rectangular h rs : rectangular (frame_of h rs).
Proof.
  unfold rectangular, frame_of. simpl. apply Forall_forall.
  intros c (j & name & -> & _)%elem_of_lookup_imap. simpl.
  by rewrite length_fmap, length_seq.
Qed.

Lemma frame_of_index h rs :
  index (frame_of h rs) = seq 0 (length (index (frame_of h rs))).
Proof. simpl. by rewrite length_seq. Qed.

Lemma columns_frame_of h rs : columns (frame_of h rs) = h.
Proof.
  unfold columns, frame_of. simpl. apply list_eq. intros j.
  rewrite list_lookup_fmap, list_lookup_imap. by destruct (h !! j).
Qed.

Lemma parse_csv_Ok h rs df :
  parse_csv (Csv h rs) = Ok df → df = frame_of h rs.
Proof. simpl. case_match; congruence. Qed.

(** ** Completeness of rows and columns *)

Lemma lookup_row_at df k j c :
  data df !! j = Some c → row_at df k !! j = Some (default NaN (c.2 !! k)).
Proof.
  intros Hj. unfold row_at, cells_at.
  by rewrite !list_lookup_fmap, Hj.
Qed.

Lemma columns_of_complete_rows df :
  rectangular df → Forall complete (rows df) → no_missing df.
Proof.
  intros Hrect Hrows. apply Forall_forall. intros c Hc.
  apply list_elem_of_lookup_1 in Hc as [j Hj].
  apply Forall_lookup. intros k v Hk.
  assert (k < length (index df)) as Hlt.
  { unfold rectangular in Hrect. rewrite Forall_forall in Hrect.
    rewrite <-(Hrect c) by (by eapply list_elem_of_lookup_2).
    by eapply lookup_lt_Some. }
  rewrite Forall_forall in Hrows.
  assert (complete (row_at df k)) as Hrow.
  { apply Hrows. eapply list_elem_of_lookup_2. by apply lookup_rows. }
  unfold complete in Hrow. rewrite Forall_lookup in Hrow.
  apply (Hrow j). by rewrite (lookup_row_at df k j c), Hk.
Qed.

Lemma rows_of_complete_columns df :
  rectangular df → no_missing df → Forall complete (rows df).
Proof.
  intros Hrect Hcols. apply Forall_forall. unfold rows.
  intros r (k & -> & Hk%elem_of_seq)%list_elem_of_fmap.
  unfold row_at, cells_at, complete. rewrite <-list_fmap_compose.
  apply Forall_fmap, Forall_forall. intros c Hc. simpl.
  unfold rectangular, no_missing in *. rewrite Forall_forall in Hrect, Hcols.
  destruct (lookup_lt_is_Some_2 c.2 k) as [v Hv]; [rewrite (Hrect c Hc); lia|].
  rewrite Hv. simpl. specialize (Hcols c Hc). unfold complete in Hcols.
  rewrite Forall_lookup in Hcols. by eapply Hcols.
Qed.

Lemma surviving_no_missing df : rectangular df → no_missing (surviving df).
Proof.
  intros Hrect. apply columns_of_complete_rows; [by apply surviving_rectangular|].
  rewrite rows_surviving by done. apply Forall_forall.
  intros r [Hr _]%list_elem_of_filter. by apply existsb_isnull_complete.
Qed.


Lemma pruned_rectangular df : rectangular df → rectangular (pruned df).
Proof.
  intros Hrect. unfold rectangular, pruned. cbn [data index].
  apply Forall_forall. intros c [_ Hc]%list_elem_of_filter.
  rewrite data_rename_discount in Hc.
  apply list_elem_of_fmap in Hc as (c0 & -> & Hc0). simpl.
  unfold rectangular in Hrect. rewrite Forall_forall in Hrect. by apply Hrect.
Qed.






(** ** Alignment of a column with the rows it comes from *)

Lemma aligned_seq col : aligned (seq 0 (length col)) col col.
Proof.
  split; [by rewrite length_seq|]. by intros k i [-> _]%lookup_seq.
Qed.

Lemma aligned_boolean_index keep idx col col0 :
  aligned idx col col0 →
  aligned (boolean_index keep idx) (boolean_index keep col) col0.
Proof.
  revert idx col. induction keep as [|b keep IH]; intros idx col [Hlen Hal].
  { split; [done | by intros [|?] ?]. }
  destruct idx as [|i idx], col as [|v col]; try done.
  assert (aligned idx col col0) as Htl.
  { split; [simpl in Hlen; lia|]. intros k j Hk. apply (Hal (S k) j Hk). }
  apply IH in Htl as [Hlen' Hal']. simpl. destruct b; [|done].
  split; [simpl; lia|]. intros [|k] j Hk; simpl in *.
  - by apply (Hal 0).
  - by apply Hal'.
Qed.

Lemma surviving_aligned df name col0 :
  rectangular df → index df = seq 0 (length (index df)) →
  (name, col0) ∈ data df →
  ∃ col, (name, col) ∈ data (surviving df)
         ∧ aligned (index (surviving df)) col col0.
Proof.
  intros Hrect Hindex Hin.
  assert (aligned (index df) col0 col0) as Hal.
  { unfold rectangular in Hrect. rewrite Forall_forall in Hrect.
    rewrite Hindex, <-(Hrect _ Hin). apply aligned_seq. }
  unfold surviving, dropna, drop_duplicates.
  set (keep1 := negb <$> duplicated df).
  set (keep2 := _ <$> rows (select_rows keep1 df)).
  exists (boolean_index keep2 (boolean_index keep1 col0)). split.
  - unfold select_rows. simpl. rewrite <-list_fmap_compose.
    apply list_elem_of_fmap. by exists (name, col0).
  - by do 2 apply aligned_boolean_index.
Qed.

(** ** Worked examples *)

Example sample_run :
  preprocess_transaction_data digits_parser "raw.csv" "out/clean.csv" true
    sample_world
  = (Ok "out/clean.csv",
     {| files :=
          <["out/clean.csv" :=
              Csv ["TransactionDate"; "DiscountApplied"; "PaymentMethod";
                   "ProductCategory"]
                  [ [Timestamp 20240101; Int 5; Int 1; Int 1];
                    [Timestamp 20240103; Int 9; Int 0; Int 0];
                    [Timestamp 20240103; Int 9; Int 0; Int 0] ]]>
            (files sample_world);
        stdout :=
          [Reading "raw.csv"; DuplicateCount 1;
           MissingCounts
             [("TransactionDate", 0); ("DiscountApplied(%)", 0);
              ("StoreLocation", 1); ("ProductID", 0);
              ("PaymentMethod", 0); ("ProductCategory", 0)]] |}).
Proof. vm_compute. reflexivity. Qed.

Example sample_labels :
  index <$> cleaned digits_parser (frame_of sample_header sample_records)
  = Ok [0; 3; 4].
Proof. vm_compute. reflexivity. Qed.

Example id_and_category_run :
  cleaned digits_parser
    (frame_of ["id"; "ProductCategory"]
       [ [Int 1; Str "A"]; [Int 1; Str "A"]; [Int 2; Str "B"]; [Int 3; NaN] ])
  = Ok {| index := [0; 2];
          data := [("id", [Int 1; Int 2]); ("ProductCategory", [Int 0; Int 1])] |}.
Proof. vm_compute. reflexivity. Qed.

Example stray_run :
  preprocess_transaction_data digits_parser "raw.csv" "out/clean.csv" false
    stray_world
  = (Ok "out/clean.csv",
     {| files :=
          <["out/clean.csv" :=
              Csv ["TransactionDate"; "Quantity"] [ [Timestamp 20240101; Int 2] ]]>
            (files stray_world);
        stdout := [] |}).
Proof. vm_compute. reflexivity. Qed.

Example broken_run :
  preprocess_transaction_data digits_parser "raw.csv" "out/clean.csv" false
    broken_world
  = (Error DateParseError, broken_world).
Proof. vm_compute. reflexivity. Qed.

Example fit_transform_sorts :
  snd <$> fit_transform [Str "b"; Str "a"; Str "c"; Str "a"]
  = Ok [Int 1; Int 0; Int 2; Int 0].
Proof. vm_compute. reflexivity. Qed.

Example fit_transform_mixed :
  snd <$> fit_transform [Str "b"; Int 3] = Error TypeError.
Proof. vm_compute. reflexivity. Qed.

(** * The pipeline as a whole *)

Lemma preprocess_Ok parse input_path output_path verbose w f p w' :
  files w !! input_path = Some f →
  preprocess_transaction_data parse input_path output_path verbose w = (Ok p, w') →
  ∃ df df',
    parse_csv f = Ok df ∧ cleaned parse df = Ok df' ∧
    p = output_path ∧
    files w' = <[output_path := render_csv df']> (files w).
Proof.
  intros Hf. rewrite (preprocess_run _ _ _ _ _ f) by done. simpl.
  destruct (parse_csv f) as [df|e] eqn:Hdf; simpl; [|done].
  destruct (cleaned parse df) as [df'|e] eqn:Hdf'; [|done].
  intros [= <- <-]. by exists df, df'.
Qed.

Lemma preprocess_Ok_csv parse input_path output_path verbose w h rs p w' :
  files w !! input_path = Some (Csv h rs) →
  preprocess_transaction_data parse input_path output_path verbose w = (Ok p, w') →
  ∃ df',
    cleaned parse (frame_of h rs) = Ok df' ∧
    files w' !! output_path = Some (render_csv df').
Proof.
  intros Hf Hrun.
  destruct (preprocess_Ok _ _ _ _ _ _ _ _ Hf Hrun)
    as (df & df' & ->%parse_csv_Ok & Hclean & _ & ->).
  exists df'. split; [done|]. apply lookup_insert_eq.
Qed.

Lemma first_occurrence (f : nat → list cell) i :
  ∃ j, j ≤ i ∧ f j = f i ∧ ∀ k, k < j → f k ≠ f i.
Proof.
  assert (∀ n, (∃ j, j < n ∧ f j = f i ∧ ∀ k, k < j → f k ≠ f i)
               ∨ (∀ k, k < n → f k ≠ f i)) as Hsearch.
  { induction n as [|n [(j & ? & ? & ?)|IH]].
    - right. intros k ?. lia.
    - left. exists j. split_and!; auto.
    - destruct (decide (f n = f i)) as [Heq|Hne].
      + left. exists n. split_and!; auto.
      + right. intros k Hk. destruct (decide (k = n)) as [->|]; [done|].
        apply IH. lia. }
  destruct (Hsearch (S i)) as [(j & ? & ? & ?)|Hnone].
  - exists j. split_and!; auto. lia.
  - by destruct (Hnone i); [lia|].
Qed.

(** C2: no two rows of the written table come from loaded rows that are
    equal over every loaded column; a written row is the first occurrence of
    its values among the loaded rows, and every loaded row without a missing
    value has its first occurrence written. *)
Theorem written_rows_are_first_occurrences
    parse w input_path output_path verbose h rs p w' :
  files w !! input_path = Some (Csv h rs) →
  preprocess_transaction_data parse input_path output_path verbose w = (Ok p, w') →
  ∃ df',
    cleaned parse (frame_of h rs) = Ok df' ∧
    files w' !! output_path = Some (render_csv df') ∧
    NoDup (index df') ∧
    (∀ i j, i ∈ index df' → j ∈ index df' → i ≠ j →
            row_at (frame_of h rs) i ≠ row_at (frame_of h rs) j) ∧
    (∀ i j, i ∈ index df' → j < i →
            row_at (frame_of h rs) j ≠ row_at (frame_of h rs) i) ∧
    (∀ i, i < length rs → complete (row_at (frame_of h rs) i) →
          ∃ j, j ≤ i ∧ j ∈ index df'
               ∧ row_at (frame_of h rs) j = row_at (frame_of h rs) i).
Proof.
  intros Hf Hrun.
  destruct (preprocess_Ok_csv _ _ _ _ _ _ _ _ _ Hf Hrun) as (df' & Hclean & Hout).
  exists df'. rewrite (cleaned_index _ _ _ Hclean).
  pose proof (elem_of_index_surviving (frame_of h rs)
                (frame_of_rectangular h rs) (frame_of_index h rs)) as Hsurv.
  assert (∀ i j, i ∈ index (surviving (frame_of h rs)) → j < i →
                 row_at (frame_of h rs) j ≠ row_at (frame_of h rs) i) as Hfirst.
  { intros i j (_ & _ & Hi)%Hsurv Hj. by apply Hi. }
  split_and!; auto.
  - apply NoDup_index_surviving, frame_of_index.
  - intros i j Hi Hj Hne Heq.
    destruct (decide (i < j)).
    + by apply (Hfirst j i).
    + apply (Hfirst i j); [done|lia|done].
  - intros i Hi Hrow.
    destruct (first_occurrence (row_at (frame_of h rs)) i) as (j & Hj & Heq & Hmin).
    exists j. split_and!; auto. apply Hsurv. simpl. rewrite length_seq.
    split_and!; [lia|by rewrite Heq|]. intros k Hk. rewrite Heq. by apply Hmin.
Qed.

Lemma written_rows_are_first_occurrences_witness :
  ∃ df',
    cleaned digits_parser (frame_of sample_header sample_records) = Ok df' ∧
    files (preprocess_transaction_data digits_parser "raw.csv" "out/clean.csv"
             false sample_world).2 !! "out/clean.csv" = Some (render_csv df') ∧
    NoDup (index df') ∧
    (∀ i j, i ∈ index df' → j ∈ index df' → i ≠ j →
            row_at (frame_of sample_header sample_records) i
            ≠ row_at (frame_of sample_header sample_records) j) ∧
    (∀ i j, i ∈ index df' → j < i →
            row_at (frame_of sample_header sample_records) j
            ≠ row_at (frame_of sample_header sample_records) i) ∧
    (∀ i, i < length sample_records →
          complete (row_at (frame_of sample_header sample_records) i) →
          ∃ j, j ≤ i ∧ j ∈ index df'
               ∧ row_at (frame_of sample_header sample_records) j
                 = row_at (frame_of sample_header sample_records) i).
Proof.
  apply (written_rows_are_first_occurrences digits_parser sample_world
           "raw.csv" "out/clean.csv" false sample_header sample_records
           "out/clean.csv").
  - vm_compute. reflexivity.
  - vm_compute. reflexivity.
Defined.

(** C3: when PaymentMethod (likewise ProductCategory) is a column of the
    input, each value of that column in the written table is a non-negative
    integer, two positions carry the same integer exactly when the surviving
    rows carry the same label there, and so the column holds as many
    distinct integers as the surviving rows hold distinct labels. *)
Theorem encoded_columns_hold_codes
    parse w input_path output_path verbose h rs p w' label :
  files w !! input_path = Some (Csv h rs) →
  preprocess_transaction_data parse input_path output_path verbose w = (Ok p, w') →
  label = "PaymentMethod" ∨ label = "ProductCategory" →
  label ∈ h →
  ∃ df' labels codes,
    cleaned parse (frame_of h rs) = Ok df' ∧
    files w' !! output_path = Some (render_csv df') ∧
    getitem label (surviving (frame_of h rs)) = Ok labels ∧
    getitem label df' = Ok codes ∧
    length codes = length labels ∧
    Forall (λ c, ∃ z, c = Int z ∧ (0 ≤ z)%Z) codes ∧
    (∀ i j a b x y,
        labels !! i = Some a → labels !! j = Some b →
        codes !! i = Some x → codes !! j = Some y →
        (x = y ↔ a = b)) ∧
    length (remove_dups codes) = length (remove_dups labels).
Proof.
  intros Hf Hrun Hlabel Hin.
  destruct (preprocess_Ok_csv _ _ _ _ _ _ _ _ _ Hf Hrun) as (df' & Hclean & Hout).
  rewrite <-(columns_frame_of h rs) in Hin.
  destruct (cleaned_encoded _ _ _ Hclean label Hlabel Hin)
    as (labels & Hlabels & _ & _ & Hcodes).
  exists df', labels, ((λ v, Int (Z.of_nat (rank v labels))) <$> labels).
  split_and!; auto.
  - by rewrite length_fmap.
  - apply Forall_fmap, Forall_forall. intros v _. simpl.
    eexists. split; [done|]. lia.
  - intros i j a b x y Ha Hb. rewrite !list_lookup_fmap, Ha, Hb. simpl.
    intros [= <-] [= <-]. split; [|by intros ->].
    intros [= Heq%Nat2Z.inj]. eapply rank_inj; [| |done].
    + by eapply list_elem_of_lookup_2.
    + by eapply list_elem_of_lookup_2.
  - apply length_remove_dups_fmap. intros v v' Hv Hv' [= Heq%Nat2Z.inj].
    by eapply rank_inj.
Qed.

Lemma encoded_columns_hold_codes_witness :
  ∃ df' labels codes,
    cleaned digits_parser (frame_of sample_header sample_records) = Ok df' ∧
    files (preprocess_transaction_data digits_parser "raw.csv" "out/clean.csv"
             true sample_world).2 !! "out/clean.csv" = Some (render_csv df') ∧
    getitem "ProductCategory"
      (surviving (frame_of sample_header sample_records)) = Ok labels ∧
    getitem "ProductCategory" df' = Ok codes ∧
    length codes = length labels ∧
    Forall (λ c, ∃ z, c = Int z ∧ (0 ≤ z)%Z) codes ∧
    (∀ i j a b x y,
        labels !! i = Some a → labels !! j = Some b →
        codes !! i = Some x → codes !! j = Some y →
        (x = y ↔ a = b)) ∧
    length (remove_dups codes) = length (remove_dups labels).
Proof.
  apply (encoded_columns_hold_codes digits_parser sample_world
           "raw.csv" "out/clean.csv" true sample_header sample_records
           "out/clean.csv").
  - vm_compute. reflexivity.
  - vm_compute. reflexivity.
  - right. reflexivity.
  - unfold sample_header. rewrite !elem_of_cons. auto 10.
Defined.

(** C4: the written table has no column named DiscountApplied(%); for each
    column of that name in the input it has a column named DiscountApplied
    that holds, at each written row, the value the input column has at that
    row's label.  On a frame without the column the rename stage, which
    cannot raise, returns the frame unchanged. *)
Theorem discount_column_is_renamed
    parse w input_path output_path verbose h rs p w' :
  files w !! input_path = Some (Csv h rs) →
  preprocess_transaction_data parse input_path output_path verbose w = (Ok p, w') →
  ∃ df',
    cleaned parse (frame_of h rs) = Ok df' ∧
    files w' !! output_path = Some (render_csv df') ∧
    ("DiscountApplied(%)" ∉ columns df') ∧
    ("DiscountApplied(%)" ∈ h → "DiscountApplied" ∈ columns df') ∧
    (∀ col0, ("DiscountApplied(%)", col0) ∈ data (frame_of h rs) →
       ∃ col, ("DiscountApplied", col) ∈ data df'
              ∧ aligned (index df') col col0) ∧
    (∀ df, "DiscountApplied(%)" ∉ columns df → rename_discount df = df).
Proof.
  intros Hf Hrun.
  destruct (preprocess_Ok_csv _ _ _ _ _ _ _ _ _ Hf Hrun) as (df' & Hclean & Hout).
  exists df'.
  assert (∀ col0, ("DiscountApplied(%)", col0) ∈ data (frame_of h rs) →
            ∃ col, ("DiscountApplied", col) ∈ data df'
                   ∧ aligned (index df') col col0) as Hcol.
  { intros col0 Hcol0.
    destruct (surviving_aligned _ _ _ (frame_of_rectangular h rs)
                (frame_of_index h rs) Hcol0) as (col & Hcol & Hal).
    exists col. rewrite (cleaned_index _ _ _ Hclean). split; [|done].
    apply (cleaned_keeps _ _ _ Hclean "DiscountApplied(%)" col Hcol); try done.
    unfold cols_to_drop. rewrite !elem_of_cons, elem_of_nil.
    by intros [?|[?|?]]. }
  split_and!; auto.
  - rewrite (cleaned_columns _ _ _ Hclean).
    intros [_ (n & Hn & _)%list_elem_of_fmap]%list_elem_of_filter.
    unfold new_name in Hn. by case_bool_decide.
  - rewrite <-(columns_frame_of h rs) at 1.
    intros ([n col0] & Hn & Hcol0)%list_elem_of_fmap. simpl in Hn. subst n.
    destruct (Hcol col0 Hcol0) as (col & Hin & _).
    apply list_elem_of_fmap. by exists ("DiscountApplied", col).
  - intros [idx cols] Hnot. unfold rename_discount, rename. simpl. f_equal.
    rewrite <-(list_fmap_id cols) at 2. apply Forall_fmap_ext, Forall_forall.
    intros [n c] Hc. simpl. rewrite new_name_lookup. unfold new_name.
    rewrite bool_decide_eq_false_2; [done|]. intros ->. apply Hnot.
    apply list_elem_of_fmap. by exists ("DiscountApplied(%)", c).
Qed.

Lemma discount_column_is_renamed_witness :
  ∃ df',
    cleaned digits_parser (frame_of sample_header sample_records) = Ok df' ∧
    files (preprocess_transaction_data digits_parser "raw.csv" "out/clean.csv"
             true sample_world).2 !! "out/clean.csv" = Some (render_csv df') ∧
    ("DiscountApplied(%)" ∉ columns df') ∧
    ("DiscountApplied(%)" ∈ sample_header → "DiscountApplied" ∈ columns df') ∧
    (∀ col0, ("DiscountApplied(%)", col0)
               ∈ data (frame_of sample_header sample_records) →
       ∃ col, ("DiscountApplied", col) ∈ data df'
              ∧ aligned (index df') col col0) ∧
    (∀ df, "DiscountApplied(%)" ∉ columns df → rename_discount df = df).
Proof.
  apply (discount_column_is_renamed digits_parser sample_world
           "raw.csv" "out/clean.csv" true sample_header sample_records
           "out/clean.csv").
  - vm_compute. reflexivity.
  - vm_compute. reflexivity.
Defined.

(** C5: the written table has neither a StoreLocation nor a ProductID
    column: its columns are the renamed input columns other than these two,
    in order.  The drop stage raises on no frame, whether it has both
    columns, one or none, and removes exactly the columns of these names. *)
Theorem unneeded_columns_are_dropped
    parse w input_path output_path verbose h rs p w' :
  files w !! input_path = Some (Csv h rs) →
  preprocess_transaction_data parse input_path output_path verbose w = (Ok p, w') →
  ∃ df',
    cleaned parse (frame_of h rs) = Ok df' ∧
    files w' !! output_path = Some (render_csv df') ∧
    ("StoreLocation" ∉ columns df') ∧
    ("ProductID" ∉ columns df') ∧
    columns df' = filter (λ n, n ∉ cols_to_drop) (new_name <$> h) ∧
    (∀ df, drop_unneeded df
           = Ok {| index := index df;
                   data := filter (λ c : string * list cell,
                                     c.1 ∉ cols_to_drop) (data df) |}).
Proof.
  intros Hf Hrun.
  destruct (preprocess_Ok_csv _ _ _ _ _ _ _ _ _ Hf Hrun) as (df' & Hclean & Hout).
  exists df'. pose proof (cleaned_columns _ _ _ Hclean) as Hcols.
  rewrite columns_frame_of in Hcols.
  split_and!; auto using drop_unneeded_eq.
  - rewrite Hcols. intros [Hnot _]%list_elem_of_filter. apply Hnot.
    unfold cols_to_drop. by left.
  - rewrite Hcols. intros [Hnot _]%list_elem_of_filter. apply Hnot.
    unfold cols_to_drop. right. by left.
Qed.

Lemma unneeded_columns_are_dropped_witness :
  ∃ df',
    cleaned digits_parser (frame_of sample_header sample_records) = Ok df' ∧
    files (preprocess_transaction_data digits_parser "raw.csv" "out/clean.csv"
             true sample_world).2 !! "out/clean.csv" = Some (render_csv df') ∧
    ("StoreLocation" ∉ columns df') ∧
    ("ProductID" ∉ columns df') ∧
    columns df' = filter (λ n, n ∉ cols_to_drop) (new_name <$> sample_header) ∧
    (∀ df, drop_unneeded df
           = Ok {| index := index df;
                   data := filter (λ c : string * list cell,
                                     c.1 ∉ cols_to_drop) (data df) |}).
Proof.
  apply (unneeded_columns_are_dropped digits_parser sample_world
           "raw.csv" "out/clean.csv" true sample_header sample_records
           "out/clean.csv").
  - vm_compute. reflexivity.
  - vm_compute. reflexivity.
Defined.

(** C6: when nothing exists at the input path the call raises
    FileNotFoundError carrying that path, before anything is read, printed
    or written: the files and the output are left as they were. *)
Theorem missing_input_raises parse w input_path output_path verbose :
  files w !! input_path = None →
  preprocess_transaction_data parse input_path output_path verbose w
  = (Error (FileNotFoundError input_path), w).
Proof.
  intros Hf. unfold preprocess_transaction_data.
  unfold mbind, io_bind, path_exists, raise. simpl. rewrite Hf.
  rewrite bool_decide_eq_false_2; [done|]. by intros [? ?].
Qed.

Lemma missing_input_raises_witness :
  preprocess_transaction_data digits_parser "absent.csv" "out/clean.csv" true
    sample_world
  = (Error (FileNotFoundError "absent.csv"), sample_world).
Proof.
  apply (missing_input_raises digits_parser sample_world "absent.csv"
           "out/clean.csv" true).
  vm_compute. reflexivity.
Defined.


(** C9, as the code has it: when a value of TransactionDate in a row that
    survives the removal of duplicates and of incomplete rows cannot be
    parsed, the call raises the parser's error and no file is written or
    changed. *)
Theorem unparsable_surviving_date_raises
    parse w input_path output_path verbose f df col v :
  files w !! input_path = Some f →
  parse_csv f = Ok df →
  getitem "TransactionDate" (surviving df) = Ok col →
  v ∈ col →
  parse col v = None →
  ∃ w', preprocess_transaction_data parse input_path output_path verbose w
        = (Error DateParseError, w')
        ∧ files w' = files w.
Proof.
  intros Hf Hdf Hcol Hv Hparse.
  rewrite (preprocess_run _ _ _ _ w f) by done. simpl. rewrite Hdf. simpl.
  assert (cleaned parse df = Error DateParseError) as ->; [|by eexists].
  unfold cleaned, convert_transaction_date.
  rewrite bool_decide_eq_true_2.
  - rewrite Hcol. simpl. unfold to_datetime.
    rewrite (traverse_Error _ col v DateParseError); [done| |done|by rewrite Hparse].
    intros y e. destruct (parse col y); simpl; congruence.
  - apply find_column_is_Some. apply getitem_Ok in Hcol. by eexists.
Qed.

Lemma unparsable_surviving_date_raises_witness :
  ∃ w', preprocess_transaction_data digits_parser "raw.csv" "out/clean.csv"
          true broken_world
        = (Error DateParseError, w')
        ∧ files w' = files broken_world.
Proof.
  apply (unparsable_surviving_date_raises digits_parser broken_world "raw.csv"
           "out/clean.csv" true
           (Csv ["TransactionDate"; "Quantity"] [ [Str "yesterday"; Int 1] ])
           (frame_of ["TransactionDate"; "Quantity"] [ [Str "yesterday"; Int 1] ])
           [Str "yesterday"] (Str "yesterday")).
  - vm_compute. reflexivity.
  - vm_compute. reflexivity.
  - vm_compute. reflexivity.
  - apply list_elem_of_singleton. reflexivity.
  - vm_compute. reflexivity.
Defined.

(** C9, as stated, fails: an unparsable value of TransactionDate in a
    loaded row does not make the call raise when that row is removed for a
    missing value before the dates are parsed. *)
Lemma unparsable_date_in_dropped_row :
  ¬ (∀ parse w input_path output_path verbose f df col v,
       files w !! input_path = Some f →
       parse_csv f = Ok df →
       getitem "TransactionDate" df = Ok col →
       v ∈ col →
       parse col v = None →
       ∃ e w', preprocess_transaction_data parse input_path output_path verbose w
               = (Error e, w')
               ∧ files w' = files w).
Proof.
  intros Hclaim.
  destruct (Hclaim digits_parser stray_world "raw.csv" "out/clean.csv" false
              (Csv ["TransactionDate"; "Quantity"]
                   [ [Str "20240101"; Int 2]; [Str "yesterday"; NaN] ])
              (frame_of ["TransactionDate"; "Quantity"]
                   [ [Str "20240101"; Int 2]; [Str "yesterday"; NaN] ])
              [Str "20240101"; Str "yesterday"] (Str "yesterday"))
    as (e & w' & Hrun & _).
  - vm_compute. reflexivity.
  - vm_compute. reflexivity.
  - vm_compute. reflexivity.
  - rewrite !elem_of_cons. auto.
  - vm_compute. reflexivity.
  - vm_compute in Hrun. discriminate Hrun.
Qed.

Lemma lexicographic_rank_Permutation s labels labels' :
  labels' ≡ₚ labels → lexicographic_rank s labels' = lexicographic_rank s labels.
Proof.
  intros Hperm. unfold lexicographic_rank.
  assert (remove_dups labels' ≡ₚ remove_dups labels) as Hdups.
  { apply NoDup_Permutation; try apply NoDup_remove_dups.
    intros t. by rewrite !elem_of_remove_dups, Hperm. }
  by rewrite Hdups.
Qed.

(** C10: when the surviving values of PaymentMethod (likewise
    ProductCategory) are strings, the written code of a label is the number
    of distinct surviving labels that come strictly before it in
    lexicographic order; the codes that occur are exactly 0 to k-1 for k
    distinct labels, and the code of a label is the same however the rows
    are ordered. *)
Theorem codes_are_lexicographic_ranks
    parse w input_path output_path verbose h rs p w' label labels :
  files w !! input_path = Some (Csv h rs) →
  preprocess_transaction_data parse input_path output_path verbose w = (Ok p, w') →
  label = "PaymentMethod" ∨ label = "ProductCategory" →
  getitem label (surviving (frame_of h rs)) = Ok (Str <$> labels) →
  ∃ df' codes,
    cleaned parse (frame_of h rs) = Ok df' ∧
    files w' !! output_path = Some (render_csv df') ∧
    getitem label df' = Ok codes ∧
    codes = (λ s, Int (Z.of_nat (lexicographic_rank s labels))) <$> labels ∧
    (∀ z, Int z ∈ codes ↔ (0 ≤ z < Z.of_nat (length (remove_dups labels)))%Z) ∧
    (∀ s labels', labels' ≡ₚ labels →
        lexicographic_rank s labels' = lexicographic_rank s labels).
Proof.
  intros Hf Hrun Hlabel Hlabels.
  destruct (preprocess_Ok_csv _ _ _ _ _ _ _ _ _ Hf Hrun) as (df' & Hclean & Hout).
  assert (label ∈ columns (frame_of h rs)) as Hin.
  { rewrite <-columns_surviving. apply find_column_is_Some.
    apply getitem_Ok in Hlabels. by eexists. }
  destruct (cleaned_encoded _ _ _ Hclean label Hlabel Hin)
    as (col & Hcol & _ & _ & Hcodes).
  rewrite Hlabels in Hcol. injection Hcol as <-.
  assert ((λ v, Int (Z.of_nat (rank v (Str <$> labels)))) <$> (Str <$> labels)
          = (λ s, Int (Z.of_nat (lexicographic_rank s labels))) <$> labels) as Heq.
  { rewrite <-list_fmap_compose. apply list_fmap_ext. intros _ s _. simpl.
    by rewrite rank_Str. }
  rewrite Heq in Hcodes. eexists df', _. split_and!; eauto.
  - intros z. rewrite list_elem_of_fmap. split.
    + intros (s & [= ->] & Hs).
      pose proof (rank_lt (Str <$> labels) (Str s)) as Hlt.
      rewrite rank_Str, (remove_dups_fmap_inj Str), length_fmap in Hlt.
      specialize (Hlt (list_elem_of_fmap_2 Str _ _ Hs)). lia.
    + intros Hz.
      destruct (rank_surj (Str <$> labels) (Z.to_nat z)) as (v & Hv & Hrank).
      { rewrite (remove_dups_fmap_inj Str), length_fmap. lia. }
      apply list_elem_of_fmap in Hv as (s & -> & Hs).
      exists s. split; [|done]. rewrite <-rank_Str, Hrank. f_equal. lia.
  - intros s labels'. apply lexicographic_rank_Permutation.
Qed.

Lemma codes_are_lexicographic_ranks_witness :
  ∃ df' codes,
    cleaned digits_parser (frame_of sample_header sample_records) = Ok df' ∧
    files (preprocess_transaction_data digits_parser "raw.csv" "out/clean.csv"
             true sample_world).2 !! "out/clean.csv" = Some (render_csv df') ∧
    getitem "ProductCategory" df' = Ok codes ∧
    codes = (λ s, Int (Z.of_nat (lexicographic_rank s ["Books"; "Art"; "Art"])))
            <$> ["Books"; "Art"; "Art"] ∧
    (∀ z, Int z ∈ codes
          ↔ (0 ≤ z < Z.of_nat (length (remove_dups ["Books"; "Art"; "Art"])))%Z) ∧
    (∀ s labels', labels' ≡ₚ ["Books"; "Art"; "Art"] →
        lexicographic_rank s labels'
        = lexicographic_rank s ["Books"; "Art"; "Art"]).
Proof.
  apply (codes_are_lexicographic_ranks digits_parser sample_world
           "raw.csv" "out/clean.csv" true sample_header sample_records
           "out/clean.csv").
  - vm_compute. reflexivity.
  - vm_compute. reflexivity.
  - right. reflexivity.
  - vm_compute. reflexivity.
Defined.

(** * Further properties of the function *)

(** ** When the stages raise *)

Lemma find_column_length label df col :
  rectangular df → find_column label (data df) = Some col →
  length col = length (index df).
Proof.
  intros Hrect Hcol%find_column_Some.
  unfold rectangular in Hrect. rewrite Forall_forall in Hrect.
  apply (Hrect _ Hcol).
Qed.

Lemma elem_of_columns_find label df :
  label ∈ columns df ↔ is_Some (find_column label (data df)).
Proof. symmetry. apply find_column_is_Some. Qed.

Lemma to_datetime_Error parse col e :
  to_datetime parse col = Error e → e = DateParseError.
Proof.
  unfold to_datetime. generalize col at 1. intros c.
  induction col as [|v col IH]; simpl; [done|].
  destruct (parse c v); simpl; [|congruence].
  destruct (traverse _ col); simpl; [done|]. intros [= <-]. by apply IH.
Qed.

Lemma convert_transaction_date_eq parse df :
  rectangular df →
  convert_transaction_date parse df
  = match find_column "TransactionDate" (data df) with
    | None => Ok df
    | Some col =>
        dates ← to_datetime parse col;
        Ok (replace_column "TransactionDate" dates df)
    end.
Proof.
  intros Hrect. unfold convert_transaction_date.
  destruct (find_column _ _) as [col|] eqn:Hcol.
  - rewrite bool_decide_eq_true_2 by (apply elem_of_columns_find; eauto).
    unfold getitem. rewrite Hcol. simpl.
    destruct (to_datetime parse col) as [dates|e] eqn:Hdates; simpl; [|done].
    apply setitem_present; [apply elem_of_columns_find; eauto|].
    rewrite (to_datetime_length _ _ _ Hdates). by eapply find_column_length.
  - rewrite bool_decide_eq_false_2; [done|].
    rewrite elem_of_columns_find, Hcol. by intros [? ?].
Qed.

Lemma encode_column_eq label df :
  rectangular df →
  encode_column label df
  = match find_column label (data df) with
    | None => Ok df
    | Some col =>
        if uniform col
        then Ok (replace_column label
                   ((λ v, Int (Z.of_nat (rank v col))) <$> col) df)
        else Error TypeError
    end.
Proof.
  intros Hrect. unfold encode_column.
  destruct (find_column _ _) as [col|] eqn:Hcol.
  - rewrite bool_decide_eq_true_2 by (apply elem_of_columns_find; eauto).
    unfold getitem. rewrite Hcol. simpl. rewrite fit_transform_eq.
    destruct (uniform col); simpl; [|done].
    apply setitem_present; [apply elem_of_columns_find; eauto|].
    rewrite length_fmap. by eapply find_column_length.
  - rewrite bool_decide_eq_false_2; [done|].
    rewrite elem_of_columns_find, Hcol. by intros [? ?].
Qed.

Lemma convert_transaction_date_rectangular parse df df' :
  rectangular df → convert_transaction_date parse df = Ok df' → rectangular df'.
Proof.
  intros Hrect [[_ ->]|(? & ? & _ & _ & _ & ? & ->)]%convert_transaction_date_inv;
    [done | by apply replace_column_rectangular].
Qed.

Lemma encode_column_rectangular label df df' :
  rectangular df → encode_column label df = Ok df' → rectangular df'.
Proof.
  intros Hrect [[_ ->]|(? & _ & _ & _ & ? & ->)]%encode_column_inv; [done|].
  apply replace_column_rectangular; [by rewrite length_fmap | done].
Qed.

Lemma cleaned_Error parse df e :
  rectangular df → cleaned parse df = Error e →
  e = DateParseError ∨ e = TypeError.
Proof.
  intros Hrect. unfold cleaned.
  pose proof (surviving_rectangular df Hrect) as Hrect0.
  destruct (convert_transaction_date parse (surviving df)) as [d1|e1] eqn:H1; simpl.
  - pose proof (convert_transaction_date_rectangular _ _ _ Hrect0 H1) as Hrect1.
    rewrite drop_unneeded_eq. simpl. fold (pruned d1).
    pose proof (pruned_rectangular d1 Hrect1) as Hrect2.
    rewrite (encode_column_eq _ _ Hrect2).
    destruct (find_column "PaymentMethod" _) as [col|] eqn:Hcol; simpl.
    + destruct (uniform col); simpl; [|intros [= <-]; by right].
      match goal with |- encode_column _ ?d = _ → _ =>
        assert (rectangular d) as Hrect3 end.
      { apply replace_column_rectangular; [|done].
        rewrite length_fmap. by eapply find_column_length. }
      rewrite (encode_column_eq _ _ Hrect3).
      destruct (find_column "ProductCategory" _); [|done].
      destruct (uniform _); [done|]. intros [= <-]. by right.
    + rewrite (encode_column_eq _ _ Hrect2).
      destruct (find_column "ProductCategory" _); [|done].
      destruct (uniform _); [done|]. intros [= <-]. by right.
  - intros [= <-]. left.
    rewrite (convert_transaction_date_eq _ _ Hrect0) in H1.
    destruct (find_column _ _) as [col|]; [|done].
    destruct (to_datetime parse col) as [?|e'] eqn:Hd; [done|].
    simpl in H1. injection H1 as <-. by eapply to_datetime_Error.
Qed.

Lemma parse_csv_rectangular f df : parse_csv f = Ok df → rectangular df.
Proof.
  destruct f as [h rs|]; [|done].
  intros ->%parse_csv_Ok. apply frame_of_rectangular.
Qed.

Lemma parse_csv_Error f e : parse_csv f = Error e → e = ParserError.
Proof.
  destruct f as [h rs|]; simpl; [case_match|]; congruence.
Qed.

(** ** What a call changes *)

(** X1: a call that returns gives back the output path it was given, leaves
    a file at that path, leaves every other file as it was (the input file
    too, unless it is the output path), and only adds to what was printed. *)
Theorem success_changes_only_the_output
    parse w input_path output_path verbose p w' :
  preprocess_transaction_data parse input_path output_path verbose w = (Ok p, w') →
  p = output_path ∧
  is_Some (files w' !! output_path) ∧
  (∀ path, path ≠ output_path → files w' !! path = files w !! path) ∧
  ∃ log, stdout w' = stdout w ++ log.
Proof.
  destruct (files w !! input_path) as [f|] eqn:Hf.
  - rewrite (preprocess_run _ _ _ _ w f) by done. simpl.
    destruct (parse_csv f ≫= cleaned parse) as [df'|e]; [|done].
    intros [= <- <-]. simpl. split_and!; eauto.
    + rewrite lookup_insert_eq. eauto.
    + intros path Hpath. by rewrite lookup_insert_ne.
  - by rewrite preprocess_missing.
Qed.

Lemma success_changes_only_the_output_witness :
  "out/clean.csv" = "out/clean.csv" ∧
  is_Some (files (preprocess_transaction_data digits_parser "raw.csv"
                    "out/clean.csv" true sample_world).2 !! "out/clean.csv") ∧
  (∀ path, path ≠ "out/clean.csv" →
     files (preprocess_transaction_data digits_parser "raw.csv"
              "out/clean.csv" true sample_world).2 !! path
     = files sample_world !! path) ∧
  ∃ log, stdout (preprocess_transaction_data digits_parser "raw.csv"
                   "out/clean.csv" true sample_world).2
         = stdout sample_world ++ log.
Proof.
  apply (success_changes_only_the_output digits_parser sample_world "raw.csv"
           "out/clean.csv" true "out/clean.csv").
  vm_compute. reflexivity.
Defined.

(** X4: without [verbose] a call prints nothing, whether it returns or
    raises. *)
Theorem quiet_prints_nothing parse w input_path output_path :
  stdout (preprocess_transaction_data parse input_path output_path false w).2
  = stdout w.
Proof.
  destruct (files w !! input_path) as [f|] eqn:Hf.
  - rewrite (preprocess_run _ _ _ _ w f) by done. simpl.
    destruct (parse_csv f ≫= cleaned parse); simpl; apply app_nil_r.
  - by rewrite preprocess_missing.
Qed.

(** ** When a call succeeds *)

Lemma to_datetime_is_Ok parse col :
  (∃ dates, to_datetime parse col = Ok dates)
  ↔ Forall (λ v, is_Some (parse col v)) col.
Proof.
  unfold to_datetime. split.
  - intros [dates Hdates%traverse_Ok].
    apply Forall_forall. intros v Hv.
    apply list_elem_of_lookup_1 in Hv as [k Hk].
    destruct (Forall2_lookup_l _ _ _ _ _ Hdates Hk) as (d & _ & Hd).
    destruct (parse col v); [eauto | done].
  - intros Hall. apply traverse_total. eapply Forall_impl; [done|]. simpl.
    intros v [d ->]. by exists d.
Qed.

Lemma find_column_replace_column_ne label label' values df :
  label' ≠ label →
  find_column label' (data (replace_column label values df))
  = find_column label' (data df).
Proof.
  intros Hne. pose proof (getitem_replace_column_ne label label' values df Hne) as Hget.
  unfold getitem in Hget.
  destruct (find_column label' (data (replace_column label values df))),
    (find_column label' (data df)); simpl in Hget; congruence.
Qed.

Lemma find_column_pruned parse df d label :
  label = "PaymentMethod" ∨ label = "ProductCategory" →
  convert_transaction_date parse (surviving df) = Ok d →
  find_column label (data (pruned d)) = find_column label (data (surviving df)).
Proof.
  intros Hlabel Hd.
  assert (getitem label (pruned d) = getitem label (surviving df)) as Hget.
  { apply (getitem_pruned parse); try done;
      try (destruct Hlabel as [-> | ->]; done).
    unfold cols_to_drop. rewrite !elem_of_cons, elem_of_nil.
    destruct Hlabel as [-> | ->]; by intros [?|[?|?]]. }
  unfold getitem in Hget.
  destruct (find_column label (data (pruned d))),
    (find_column label (data (surviving df))); simpl in Hget; congruence.
Qed.

Lemma encode_column_is_Ok label df :
  rectangular df →
  (∃ df', encode_column label df = Ok df')
  ↔ (∀ col, find_column label (data df) = Some col → uniform col = true).
Proof.
  intros Hrect. rewrite (encode_column_eq _ _ Hrect).
  destruct (find_column label (data df)) as [col|].
  - destruct (uniform col) eqn:Hu.
    + split; [by intros _ ? [= <-] | eauto].
    + split; [by intros [? ?]|]. intros Hcol. specialize (Hcol col eq_refl). congruence.
  - split; [done | eauto].
Qed.

Lemma find_column_encode_column label label' df df' :
  label' ≠ label → encode_column label df = Ok df' →
  find_column label' (data df') = find_column label' (data df).
Proof.
  intros Hne [[_ ->]|(? & _ & _ & _ & _ & ->)]%encode_column_inv; [done|].
  by apply find_column_replace_column_ne.
Qed.

Lemma cleaned_stages parse df df' :
  cleaned parse df = Ok df'
  ↔ ∃ d1 d2,
      convert_transaction_date parse (surviving df) = Ok d1 ∧
      encode_column "PaymentMethod" (pruned d1) = Ok d2 ∧
      encode_column "ProductCategory" d2 = Ok df'.
Proof.
  split; [apply cleaned_inv|]. intros (d1 & d2 & H1 & H2 & H3).
  assert (drop_unneeded (rename_discount d1) = Ok (pruned d1)) as Hdrop.
  { by rewrite drop_unneeded_eq. }
  unfold cleaned. apply bind_Ok. exists d1. split; [done|].
  apply bind_Ok. exists (pruned d1). split; [done|].
  apply bind_Ok. by exists d2.
Qed.

Lemma cleaned_is_Ok parse df :
  rectangular df →
  (∃ df', cleaned parse df = Ok df')
  ↔ (∀ col, getitem "TransactionDate" (surviving df) = Ok col →
            Forall (λ v, is_Some (parse col v)) col)
    ∧ (∀ col, getitem "PaymentMethod" (surviving df) = Ok col →
              uniform col = true)
    ∧ (∀ col, getitem "ProductCategory" (surviving df) = Ok col →
              uniform col = true).
Proof.
  intros Hrect. pose proof (surviving_rectangular df Hrect) as Hrect0.
  setoid_rewrite getitem_Ok. setoid_rewrite cleaned_stages. split.
  - intros (df' & d1 & d2 & H1 & H2 & H3).
    pose proof (convert_transaction_date_rectangular _ _ _ Hrect0 H1) as Hrect1.
    pose proof (pruned_rectangular _ Hrect1) as Hrect2.
    pose proof (encode_column_rectangular _ _ _ Hrect2 H2) as Hrect3.
    split_and!.
    + intros col Hcol.
      rewrite (convert_transaction_date_eq _ _ Hrect0), Hcol in H1.
      apply to_datetime_is_Ok. destruct (to_datetime parse col); [eauto|done].
    + intros col Hcol.
      apply (proj1 (encode_column_is_Ok "PaymentMethod" _ Hrect2)); [eauto|].
      by rewrite (find_column_pruned parse df d1) by auto.
    + intros col Hcol.
      apply (proj1 (encode_column_is_Ok "ProductCategory" _ Hrect3)); [eauto|].
      rewrite (find_column_encode_column "PaymentMethod" "ProductCategory"
                 _ _ ltac:(done) H2).
      by rewrite (find_column_pruned parse df d1) by auto.
  - intros (Hdate & Hpay & Hcat).
    assert (∃ d1, convert_transaction_date parse (surviving df) = Ok d1) as [d1 H1].
    { rewrite (convert_transaction_date_eq _ _ Hrect0).
      destruct (find_column _ _) as [col|]; [|eauto].
      destruct (proj2 (to_datetime_is_Ok parse col) (Hdate col eq_refl)) as [dates ->].
      simpl. eauto. }
    pose proof (convert_transaction_date_rectangular _ _ _ Hrect0 H1) as Hrect1.
    pose proof (pruned_rectangular _ Hrect1) as Hrect2.
    destruct (proj2 (encode_column_is_Ok "PaymentMethod" _ Hrect2)) as [d2 H2].
    { intros col. rewrite (find_column_pruned parse df d1) by auto. apply Hpay. }
    pose proof (encode_column_rectangular _ _ _ Hrect2 H2) as Hrect3.
    destruct (proj2 (encode_column_is_Ok "ProductCategory" _ Hrect3)) as [df' H3].
    { intros col.
      rewrite (find_column_encode_column "PaymentMethod" "ProductCategory"
                 _ _ ltac:(done) H2).
      rewrite (find_column_pruned parse df d1) by auto. apply Hcat. }
    by exists df', d1, d2.
Qed.

(** X5: given a file that reads as a table, a call returns exactly when
    every date that survives stages 1 and 2 can be parsed (if there is a
    TransactionDate column) and the surviving PaymentMethod values, and the
    surviving ProductCategory values, are of one type (if these columns are
    there); otherwise it raises. *)
Theorem succeeds_exactly_when parse w input_path output_path verbose f df :
  files w !! input_path = Some f →
  parse_csv f = Ok df →
  (∃ w', preprocess_transaction_data parse input_path output_path verbose w
         = (Ok output_path, w'))
  ↔ (∀ col, getitem "TransactionDate" (surviving df) = Ok col →
            Forall (λ v, is_Some (parse col v)) col)
    ∧ (∀ col, getitem "PaymentMethod" (surviving df) = Ok col →
              uniform col = true)
    ∧ (∀ col, getitem "ProductCategory" (surviving df) = Ok col →
              uniform col = true).
Proof.
  intros Hf Hdf.
  rewrite <-(cleaned_is_Ok parse df) by (by eapply parse_csv_rectangular).
  rewrite (preprocess_run _ _ _ _ w f) by done. simpl. rewrite Hdf. simpl.
  destruct (cleaned parse df) as [df'|e]; split; eauto.
  - by intros [? ?].
  - by intros [? ?].
Qed.

Lemma succeeds_exactly_when_witness :
  (∃ w', preprocess_transaction_data digits_parser "raw.csv" "out/clean.csv"
           true sample_world
         = (Ok "out/clean.csv", w'))
  ↔ (∀ col, getitem "TransactionDate"
              (surviving (frame_of sample_header sample_records)) = Ok col →
            Forall (λ v, is_Some (digits_parser col v)) col)
    ∧ (∀ col, getitem "PaymentMethod"
                (surviving (frame_of sample_header sample_records)) = Ok col →
              uniform col = true)
    ∧ (∀ col, getitem "ProductCategory"
                (surviving (frame_of sample_header sample_records)) = Ok col →
              uniform col = true).
Proof.
  apply (succeeds_exactly_when digits_parser sample_world "raw.csv"
           "out/clean.csv" true (Csv sample_header sample_records)).
  - vm_compute. reflexivity.
  - vm_compute. reflexivity.
Defined.

(** X6: on a file with a header and no record a call returns, whatever the
    columns and the date parser, and writes the header with the discount
    column renamed and the two unneeded columns removed, and no record. *)
Theorem header_only_input_succeeds parse w input_path output_path verbose h :
  files w !! input_path = Some (Csv h []) →
  ∃ w', preprocess_transaction_data parse input_path output_path verbose w
        = (Ok output_path, w')
        ∧ files w' !! output_path
          = Some (Csv (filter (λ n, n ∉ cols_to_drop) (new_name <$> h)) []).
Proof.
  intros Hf.
  assert (∀ label col,
            getitem label (surviving (frame_of h [])) = Ok col → col = []) as Hnil.
  { intros label col Hcol%getitem_Ok.
    apply find_column_length in Hcol;
      [|apply surviving_rectangular, frame_of_rectangular].
    by destruct col. }
  destruct (proj2 (cleaned_is_Ok parse (frame_of h []) (frame_of_rectangular h [])))
    as [df' Hclean].
  { split_and!; intros col ->%Hnil; done. }
  rewrite (preprocess_run _ _ _ _ w (Csv h [])) by done. simpl.
  rewrite Hclean. eexists. split; [done|]. simpl.
  rewrite lookup_insert_eq. unfold render_csv, rows.
  rewrite (cleaned_columns _ _ _ Hclean), (cleaned_index _ _ _ Hclean).
  by rewrite columns_frame_of.
Qed.

Lemma header_only_input_succeeds_witness :
  ∃ w', preprocess_transaction_data digits_parser "raw.csv" "out/clean.csv"
          true {| files := {[ "raw.csv" := Csv sample_header [] ]}; stdout := [] |}
        = (Ok "out/clean.csv", w')
        ∧ files w' !! "out/clean.csv"
          = Some (Csv (filter (λ n, n ∉ cols_to_drop)
                         (new_name <$> sample_header)) []).
Proof.
  apply (header_only_input_succeeds digits_parser
           {| files := {[ "raw.csv" := Csv sample_header [] ]}; stdout := [] |}
           "raw.csv" "out/clean.csv" true sample_header).
  vm_compute. reflexivity.
Defined.

(** ** The rows that are written *)

Lemma StronglySorted_boolean_index {A} (R : relation A) keep (l : list A) :
  StronglySorted R l → StronglySorted R (boolean_index keep l).
Proof.
  intros Hsorted. revert keep.
  induction Hsorted as [|x l Hsorted IH Hx]; intros [|b keep]; simpl;
    try constructor.
  destruct b; [|apply IH]. constructor; [apply IH|].
  apply Forall_forall. intros y Hy%boolean_index_elem_of.
  rewrite Forall_forall in Hx. by apply Hx.
Qed.

Lemma StronglySorted_seq j n : StronglySorted lt (seq j n).
Proof.
  revert j. induction n as [|n IH]; intros j; simpl; constructor; [apply IH|].
  apply Forall_forall. intros k Hk%elem_of_seq. lia.
Qed.

Lemma index_surviving_sorted df :
  index df = seq 0 (length (index df)) →
  StronglySorted lt (index (surviving df)).
Proof.
  intros Hindex. unfold surviving, dropna, drop_duplicates, select_rows. simpl.
  do 2 apply StronglySorted_boolean_index. rewrite Hindex.
  apply StronglySorted_seq.
Qed.

(** X7: the rows are written in the order in which they were loaded: the
    labels of the written rows increase strictly, so no row is moved and none
    is written twice. *)
Theorem written_rows_keep_their_order
    parse w input_path output_path verbose h rs p w' :
  files w !! input_path = Some (Csv h rs) →
  preprocess_transaction_data parse input_path output_path verbose w = (Ok p, w') →
  ∃ df',
    cleaned parse (frame_of h rs) = Ok df' ∧
    files w' !! output_path = Some (render_csv df') ∧
    length (rows df') = length (index df') ∧
    StronglySorted lt (index df').
Proof.
  intros Hf Hrun.
  destruct (preprocess_Ok_csv _ _ _ _ _ _ _ _ _ Hf Hrun) as (df' & Hclean & Hout).
  exists df'. split_and!; auto using length_rows.
  rewrite (cleaned_index _ _ _ Hclean).
  apply index_surviving_sorted, frame_of_index.
Qed.

Lemma written_rows_keep_their_order_witness :
  ∃ df',
    cleaned digits_parser (frame_of sample_header sample_records) = Ok df' ∧
    files (preprocess_transaction_data digits_parser "raw.csv" "out/clean.csv"
             true sample_world).2 !! "out/clean.csv" = Some (render_csv df') ∧
    length (rows df') = length (index df') ∧
    StronglySorted lt (index df').
Proof.
  apply (written_rows_keep_their_order digits_parser sample_world
           "raw.csv" "out/clean.csv" true sample_header sample_records
           "out/clean.csv").
  - vm_compute. reflexivity.
  - vm_compute. reflexivity.
Defined.

Lemma drop_duplicates_from_spec seen (rs : list (list cell)) :
  NoDup (boolean_index (negb <$> duplicated_from seen rs) rs)
  ∧ ∀ r, r ∈ boolean_index (negb <$> duplicated_from seen rs) rs
         ↔ r ∈ rs ∧ (r ∉ seen).
Proof.
  revert seen. induction rs as [|r0 rs IH]; intros seen; simpl.
  { split; [constructor|]. intros r. rewrite elem_of_nil. tauto. }
  destruct (IH (r0 :: seen)) as [Hdup Hin].
  assert (∀ r, r ∈ boolean_index (negb <$> duplicated_from (r0 :: seen) rs) rs
               ↔ r ∈ rs ∧ r ≠ r0 ∧ (r ∉ seen)) as Hin'.
  { intros r. rewrite Hin, not_elem_of_cons. tauto. }
  case_bool_decide as Hseen; simpl.
  - split; [done|]. intros r. rewrite Hin', elem_of_cons. split.
    + tauto.
    + intros [[->|?] ?]; [done|]. split_and!; auto. by intros ->.
  - split.
    + constructor; [|done]. rewrite Hin'. tauto.
    + intros r. rewrite !elem_of_cons, Hin'. split.
      * intros [->|(? & ? & ?)]; auto.
      * intros [[->|?] ?]; [by left|].
        destruct (decide (r = r0)) as [->|]; [by left|]. right. auto.
Qed.

Global Instance complete_dec r : Decision (complete r).
Proof. unfold complete. apply _. Defined.

Lemma length_rows_surviving df :
  rectangular df →
  length (rows (surviving df))
  = length (remove_dups (filter complete (rows df))).
Proof.
  intros Hrect. rewrite (rows_surviving df Hrect).
  destruct (drop_duplicates_from_spec [] (rows df)) as [Hdup Hin].
  fold (duplicated df) in Hdup, Hin.
  apply Permutation_length, NoDup_Permutation.
  - by apply NoDup_filter.
  - apply NoDup_remove_dups.
  - intros r. rewrite elem_of_remove_dups, !list_elem_of_filter, Hin.
    rewrite existsb_isnull_complete, elem_of_nil. tauto.
Qed.

Lemma rows_frame_of h rs :
  Forall (λ r : list cell, length r = length h) rs → rows (frame_of h rs) = rs.
Proof.
  intros Hlen. apply list_eq. intros k. unfold rows. simpl.
  rewrite length_seq, list_lookup_fmap.
  destruct (rs !! k) as [r|] eqn:Hr.
  - rewrite lookup_seq_lt by (by eapply lookup_lt_Some). simpl. f_equal.
    rewrite Forall_forall in Hlen.
    specialize (Hlen r (list_elem_of_lookup_2 _ _ _ Hr)).
    apply list_eq. intros j. unfold row_at, cells_at. simpl.
    rewrite !list_lookup_fmap, list_lookup_imap.
    destruct (h !! j) as [name|] eqn:Hj; simpl.
    + rewrite list_lookup_fmap, Hr. simpl.
      destruct (lookup_lt_is_Some_2 r j) as [v ->]; [|done].
      rewrite Hlen. by eapply lookup_lt_Some.
    + symmetry. apply lookup_ge_None. rewrite Hlen. by apply lookup_ge_None.
  - by rewrite lookup_seq_ge by (by apply lookup_ge_None).
Qed.

(** X8: as many rows are written as there are distinct rows without a
    missing value among the loaded rows; when each record of the file has one
    field per header field, the loaded rows are the records themselves. *)
Theorem written_row_count parse w input_path output_path verbose h rs p w' :
  files w !! input_path = Some (Csv h rs) →
  preprocess_transaction_data parse input_path output_path verbose w = (Ok p, w') →
  ∃ df',
    cleaned parse (frame_of h rs) = Ok df' ∧
    files w' !! output_path = Some (render_csv df') ∧
    length (rows df')
    = length (remove_dups (filter complete (rows (frame_of h rs)))) ∧
    (Forall (λ r : list cell, length r = length h) rs →
     rows (frame_of h rs) = rs).
Proof.
  intros Hf Hrun.
  destruct (preprocess_Ok_csv _ _ _ _ _ _ _ _ _ Hf Hrun) as (df' & Hclean & Hout).
  exists df'. split_and!; auto using rows_frame_of.
  rewrite length_rows, (cleaned_index _ _ _ Hclean), <-length_rows.
  apply length_rows_surviving, frame_of_rectangular.
Qed.

Lemma written_row_count_witness :
  ∃ df',
    cleaned digits_parser (frame_of sample_header sample_records) = Ok df' ∧
    files (preprocess_transaction_data digits_parser "raw.csv" "out/clean.csv"
             true sample_world).2 !! "out/clean.csv" = Some (render_csv df') ∧
    length (rows df')
    = length (remove_dups
                (filter complete (rows (frame_of sample_header sample_records)))) ∧
    (Forall (λ r : list cell, length r = length sample_header) sample_records →
     rows (frame_of sample_header sample_records) = sample_records).
Proof.
  apply (written_row_count digits_parser sample_world
           "raw.csv" "out/clean.csv" true sample_header sample_records
           "out/clean.csv").
  - vm_compute. reflexivity.
  - vm_compute. reflexivity.
Defined.

(** X9: a column that the stages do not name (not TransactionDate, the
    discount column, StoreLocation, ProductID, PaymentMethod or
    ProductCategory) is written under its own name with, at each written
    row, the value it had at that row when loaded. *)
Theorem other_columns_pass_through
    parse w input_path output_path verbose h rs p w' name col0 :
  files w !! input_path = Some (Csv h rs) →
  preprocess_transaction_data parse input_path output_path verbose w = (Ok p, w') →
  (name, col0) ∈ data (frame_of h rs) →
  name ∉ ["TransactionDate"; "DiscountApplied(%)"; "StoreLocation";
          "ProductID"; "PaymentMethod"; "ProductCategory"] →
  ∃ df' col,
    cleaned parse (frame_of h rs) = Ok df' ∧
    files w' !! output_path = Some (render_csv df') ∧
    (name, col) ∈ data df' ∧
    aligned (index df') col col0.
Proof.
  intros Hf Hrun Hin Hname.
  destruct (preprocess_Ok_csv _ _ _ _ _ _ _ _ _ Hf Hrun) as (df' & Hclean & Hout).
  destruct (surviving_aligned _ _ _ (frame_of_rectangular h rs)
              (frame_of_index h rs) Hin) as (col & Hcol & Hal).
  rewrite !not_elem_of_cons in Hname.
  destruct Hname as (Hdate & Hdisc & Hstore & Hprod & Hpay & Hcat & _).
  assert (new_name name = name) as Hnew.
  { unfold new_name. by rewrite bool_decide_eq_false_2. }
  exists df', col. split_and!; auto.
  - rewrite <-Hnew. apply (cleaned_keeps _ _ _ Hclean name col Hcol);
      rewrite ?Hnew; try done.
    unfold cols_to_drop. rewrite !not_elem_of_cons. split_and!; auto.
    apply not_elem_of_nil.
  - by rewrite (cleaned_index _ _ _ Hclean).
Qed.

Lemma other_columns_pass_through_witness :
  ∃ df' col,
    cleaned digits_parser
      (frame_of ["Quantity"; "ProductID"] [ [Int 2; Str "A"]; [Int 3; Str "B"] ])
    = Ok df' ∧
    files (preprocess_transaction_data digits_parser "raw.csv" "out/clean.csv"
             true
             {| files := {[ "raw.csv" := Csv ["Quantity"; "ProductID"]
                                            [ [Int 2; Str "A"]; [Int 3; Str "B"] ] ]};
                stdout := [] |}).2 !! "out/clean.csv"
    = Some (render_csv df') ∧
    ("Quantity", col) ∈ data df' ∧
    aligned (index df') col [Int 2; Int 3].
Proof.
  apply (other_columns_pass_through digits_parser
           {| files := {[ "raw.csv" := Csv ["Quantity"; "ProductID"]
                                          [ [Int 2; Str "A"]; [Int 3; Str "B"] ] ]};
              stdout := [] |}
           "raw.csv" "out/clean.csv" true ["Quantity"; "ProductID"]
           [ [Int 2; Str "A"]; [Int 3; Str "B"] ] "out/clean.csv").
  - vm_compute. reflexivity.
  - vm_compute. reflexivity.
  - simpl. left.
  - rewrite !not_elem_of_cons. split_and!; try done. apply not_elem_of_nil.
Defined.

(** ** What is printed *)



Lemma boolean_index_all {A} (m : list bool) (l : list A) :
  length m = length l → Forall (λ b, b = true) m → boolean_index m l = l.
Proof.
  revert l. induction m as [|b m IH]; intros [|x l]; simpl; try done.
  intros [= Hlen] [-> Hall]%Forall_cons. by rewrite IH.
Qed.






(** ** How stages 1 and 2 compose *)

Lemma select_rows_all keep df :
  rectangular df → length keep = length (index df) →
  Forall (λ b, b = true) keep → select_rows keep df = df.
Proof.
  intros Hrect Hlen Hall. destruct df as [idx cols]. unfold select_rows. simpl in *.
  f_equal; [by apply boolean_index_all|].
  rewrite <-(list_fmap_id cols) at 2. apply Forall_fmap_ext.
  eapply Forall_impl; [apply Hrect|]. simpl. intros [name col] Hcol. simpl in *.
  f_equal. apply boolean_index_all; [congruence | done].
Qed.

Lemma duplicated_from_NoDup seen (rs : list (list cell)) :
  NoDup rs → (∀ r, r ∈ rs → r ∉ seen) →
  Forall (λ b, b = true) (negb <$> duplicated_from seen rs).
Proof.
  intros Hdup. revert seen.
  induction Hdup as [|r rs Hr Hdup IH]; intros seen Hseen; csimpl; constructor.
  - rewrite bool_decide_eq_false_2; [done|]. apply Hseen. by left.
  - apply IH. intros r' Hr'. rewrite not_elem_of_cons. split.
    + by intros ->.
    + apply Hseen. by right.
Qed.

Lemma drop_duplicates_NoDup df :
  rectangular df → NoDup (rows df) → drop_duplicates df = df.
Proof.
  intros Hrect Hdup. apply select_rows_all; [done| |].
  - unfold duplicated. by rewrite length_fmap, length_duplicated_from, length_rows.
  - apply duplicated_from_NoDup; [done|]. intros r _. apply not_elem_of_nil.
Qed.

Lemma dropna_no_missing df :
  rectangular df → no_missing df → dropna df = df.
Proof.
  intros Hrect Hdf. apply select_rows_all; [done| |].
  - by rewrite length_fmap, length_rows.
  - apply Forall_fmap. eapply Forall_impl;
      [by apply rows_of_complete_columns|].
    simpl. intros r Hr%existsb_isnull_complete. by rewrite Hr.
Qed.

Lemma rows_drop_duplicates df :
  rectangular df →
  rows (drop_duplicates df) = boolean_index (negb <$> duplicated df) (rows df).
Proof.
  intros Hrect. apply rows_select_rows; [done|]. unfold duplicated.
  by rewrite length_fmap, length_duplicated_from, length_rows.
Qed.

Lemma rows_dropna df :
  rectangular df →
  rows (dropna df) = filter (λ r, existsb isnull r = false) (rows df).
Proof.
  intros Hrect. unfold dropna.
  rewrite rows_select_rows by (by rewrite ?length_fmap, ?length_rows).
  rewrite boolean_index_filter. apply list_filter_iff. intros r.
  by destruct (existsb isnull r).
Qed.

Lemma dropna_rectangular df : rectangular df → rectangular (dropna df).
Proof.
  intros Hrect. apply select_rows_rectangular; [done|].
  by rewrite length_fmap, length_rows.
Qed.

Lemma dropna_complete df : rectangular df → no_missing (dropna df).
Proof.
  intros Hrect. apply columns_of_complete_rows; [by apply dropna_rectangular|].
  rewrite rows_dropna by done. apply Forall_forall.
  intros r [Hr _]%list_elem_of_filter. by apply existsb_isnull_complete.
Qed.

Lemma NoDup_rows_drop_duplicates df :
  rectangular df → NoDup (rows (drop_duplicates df)).
Proof.
  intros Hrect. rewrite rows_drop_duplicates by done.
  apply drop_duplicates_from_spec.
Qed.

(** X11: stages 1 and 2 are idempotent, each alone and the two together:
    removing the duplicates, or the incomplete rows, of a frame from which
    they were already removed changes nothing. *)
Theorem row_stages_are_idempotent df :
  rectangular df →
  drop_duplicates (drop_duplicates df) = drop_duplicates df ∧
  dropna (dropna df) = dropna df ∧
  surviving (surviving df) = surviving df.
Proof.
  intros Hrect. split_and!.
  - apply drop_duplicates_NoDup;
      [by apply drop_duplicates_rectangular | by apply NoDup_rows_drop_duplicates].
  - apply dropna_no_missing; [by apply dropna_rectangular | by apply dropna_complete].
  - unfold surviving at 1.
    rewrite (drop_duplicates_NoDup (surviving df)).
    + apply dropna_no_missing;
        [by apply surviving_rectangular | by apply surviving_no_missing].
    + by apply surviving_rectangular.
    + rewrite rows_surviving by done. apply NoDup_filter.
      apply drop_duplicates_from_spec.
Qed.

Lemma row_stages_are_idempotent_witness :
  drop_duplicates (drop_duplicates (frame_of sample_header sample_records))
  = drop_duplicates (frame_of sample_header sample_records) ∧
  dropna (dropna (frame_of sample_header sample_records))
  = dropna (frame_of sample_header sample_records) ∧
  surviving (surviving (frame_of sample_header sample_records))
  = surviving (frame_of sample_header sample_records).
Proof.
  apply (row_stages_are_idempotent (frame_of sample_header sample_records)).
  unfold rectangular. simpl. repeat constructor.
Defined.

Lemma boolean_index_commute {A} (P : list cell → bool) seen
    (rs : list (list cell)) (l : list A) :
  length l = length rs →
  boolean_index
    (P <$> boolean_index (negb <$> duplicated_from seen rs) rs)
    (boolean_index (negb <$> duplicated_from seen rs) l)
  = boolean_index
      (negb <$> duplicated_from (filter (λ r, P r = true) seen)
                  (filter (λ r, P r = true) rs))
      (boolean_index (P <$> rs) l).
Proof.
  revert seen l. induction rs as [|r rs IH]; intros seen [|x l]; try done.
  intros [= Hlen]. csimpl.
  assert (filter (λ r, P r = true) (r :: seen)
          = if P r then r :: filter (λ r, P r = true) seen
            else filter (λ r, P r = true) seen) as Hseen.
  { rewrite filter_cons. by destruct (P r). }
  specialize (IH (r :: seen) l Hlen). rewrite Hseen in IH.
  rewrite filter_cons. destruct (P r) eqn:HP; simpl.
  - assert (bool_decide (r ∈ filter (λ r, P r = true) seen)
            = bool_decide (r ∈ seen)) as ->.
    { apply bool_decide_ext. rewrite list_elem_of_filter. tauto. }
    case_bool_decide; csimpl; rewrite ?HP; by rewrite IH.
  - case_bool_decide; csimpl; rewrite ?HP; by rewrite IH.
Qed.

(** X12: stages 1 and 2 commute: removing the incomplete rows first and the
    duplicates second leaves the same frame, labels included. *)
Theorem row_stages_commute df :
  rectangular df → dropna (drop_duplicates df) = drop_duplicates (dropna df).
Proof.
  intros Hrect.
  assert (rows (dropna df) = filter (λ r, negb (existsb isnull r) = true) (rows df))
    as Hrows.
  { rewrite rows_dropna by done. apply list_filter_iff. intros r.
    by destruct (existsb isnull r). }
  unfold dropna at 1. rewrite rows_drop_duplicates by done.
  unfold drop_duplicates at 2, duplicated at 2. rewrite Hrows.
  unfold drop_duplicates, dropna, select_rows, duplicated. simpl.
  assert (∀ A (l : list A), length l = length (index df) →
            boolean_index
              ((λ r, negb (existsb isnull r))
                 <$> boolean_index (negb <$> duplicated_from [] (rows df)) (rows df))
              (boolean_index (negb <$> duplicated_from [] (rows df)) l)
            = boolean_index
                (negb <$> duplicated_from []
                   (filter (λ r, negb (existsb isnull r) = true) (rows df)))
                (boolean_index ((λ r, negb (existsb isnull r)) <$> rows df) l))
    as Hcomm.
  { intros A l Hl.
    apply (boolean_index_commute (λ r, negb (existsb isnull r)) [] (rows df) l).
    by rewrite length_rows. }
  f_equal.
  - by apply Hcomm.
  - rewrite <-!list_fmap_compose. apply Forall_fmap_ext.
    eapply Forall_impl; [apply Hrect|]. intros [name col] Hcol. simpl in *.
    f_equal. by apply Hcomm.
Qed.

Lemma row_stages_commute_witness :
  dropna (drop_duplicates (frame_of sample_header sample_records))
  = drop_duplicates (dropna (frame_of sample_header sample_records)).
Proof.
  apply (row_stages_commute (frame_of sample_header sample_records)).
  unfold rectangular. simpl. repeat constructor.
Defined.

(** ** More on the encoded columns *)

Lemma StronglySorted_lookup_lt {A} (R : relation A) (l : list A) i j x y :
  StronglySorted R l → l !! i = Some x → l !! j = Some y → i < j → R x y.
Proof.
  intros Hsorted. revert i j.
  induction Hsorted as [|z l Hsorted IH Hz]; intros i j Hi Hj Hlt; [done|].
  destruct j as [|j]; [lia|]. simpl in Hj. destruct i as [|i]; simpl in Hi.
  - injection Hi as ->. rewrite Forall_forall in Hz. apply Hz.
    by eapply list_elem_of_lookup_2.
  - apply (IH i j); [done..|lia].
Qed.

Lemma rank_lt_iff (y : list cell) a b :
  a ∈ y → b ∈ y → cell_lt a b ↔ rank a y < rank b y.
Proof.
  intros Ha Hb.
  pose proof (lookup_rank y a Ha) as Hia.
  pose proof (lookup_rank y b Hb) as Hib.
  pose proof (classes_sorted y) as Hsorted.
  split.
  - intros Hlt. destruct (decide (rank a y < rank b y)) as [|Hge]; [done|].
    destruct (decide (rank a y = rank b y)) as [Heq|Hne].
    + rewrite Heq in Hia. assert (a = b) as -> by congruence.
      by destruct (cell_lt_irrefl b).
    + assert (cell_le b a) as [Hba| ->]%cell_le_lt.
      { eapply (StronglySorted_lookup_lt cell_le); [done..|lia]. }
      * by destruct (cell_lt_asym a b).
      * by destruct (cell_lt_irrefl a).
  - intros Hlt.
    assert (cell_le a b) as [?| ->]%cell_le_lt; [|done|lia].
    by eapply (StronglySorted_lookup_lt cell_le).
Qed.

(** X13: the codes keep the order of the labels, whatever their type: of
    two written rows, one has the smaller code in PaymentMethod (likewise in
    ProductCategory) exactly when its label sorts before the other's
    (lexicographically for strings, numerically for numbers). *)
Theorem codes_keep_the_order_of_labels
    parse w input_path output_path verbose h rs p w' label :
  files w !! input_path = Some (Csv h rs) →
  preprocess_transaction_data parse input_path output_path verbose w = (Ok p, w') →
  label = "PaymentMethod" ∨ label = "ProductCategory" →
  label ∈ h →
  ∃ df' labels codes,
    cleaned parse (frame_of h rs) = Ok df' ∧
    files w' !! output_path = Some (render_csv df') ∧
    getitem label (surviving (frame_of h rs)) = Ok labels ∧
    getitem label df' = Ok codes ∧
    (∀ i j a b x y,
        labels !! i = Some a → labels !! j = Some b →
        codes !! i = Some (Int x) → codes !! j = Some (Int y) →
        (cell_lt a b ↔ (x < y)%Z)).
Proof.
  intros Hf Hrun Hlabel Hin.
  destruct (preprocess_Ok_csv _ _ _ _ _ _ _ _ _ Hf Hrun) as (df' & Hclean & Hout).
  rewrite <-(columns_frame_of h rs) in Hin.
  destruct (cleaned_encoded _ _ _ Hclean label Hlabel Hin)
    as (labels & Hlabels & _ & _ & Hcodes).
  exists df', labels, ((λ v, Int (Z.of_nat (rank v labels))) <$> labels).
  split_and!; auto.
  intros i j a b x y Ha Hb. rewrite !list_lookup_fmap, Ha, Hb. simpl.
  intros [= <-] [= <-].
  rewrite (rank_lt_iff labels a b) by (by eapply list_elem_of_lookup_2). lia.
Qed.

Lemma codes_keep_the_order_of_labels_witness :
  ∃ df' labels codes,
    cleaned digits_parser (frame_of sample_header sample_records) = Ok df' ∧
    files (preprocess_transaction_data digits_parser "raw.csv" "out/clean.csv"
             true sample_world).2 !! "out/clean.csv" = Some (render_csv df') ∧
    getitem "PaymentMethod"
      (surviving (frame_of sample_header sample_records)) = Ok labels ∧
    getitem "PaymentMethod" df' = Ok codes ∧
    (∀ i j a b x y,
        labels !! i = Some a → labels !! j = Some b →
        codes !! i = Some (Int x) → codes !! j = Some (Int y) →
        (cell_lt a b ↔ (x < y)%Z)).
Proof.
  apply (codes_keep_the_order_of_labels digits_parser sample_world
           "raw.csv" "out/clean.csv" true sample_header sample_records
           "out/clean.csv").
  - vm_compute. reflexivity.
  - vm_compute. reflexivity.
  - left. reflexivity.
  - unfold sample_header. rewrite !elem_of_cons. auto 10.
Defined.

Lemma replace_column_commute a b xs ys df :
  a ≠ b →
  replace_column a xs (replace_column b ys df)
  = replace_column b ys (replace_column a xs df).
Proof.
  intros Hne. unfold replace_column. simpl. f_equal.
  rewrite <-!list_fmap_compose. apply list_fmap_ext. intros _ [n c] _. simpl.
  repeat (case_bool_decide; simpl in *); congruence.
Qed.

(** X14: the two categorical columns are encoded independently of each
    other: encoding one column and then another gives the same frame, or
    raises the same exception, as encoding them in the other order. *)
Theorem encodings_commute a b df :
  rectangular df → a ≠ b →
  encode_column a df ≫= encode_column b
  = encode_column b df ≫= encode_column a.
Proof.
  intros Hrect Hne.
  assert (∀ l vs, length vs = length (index df) →
            rectangular (replace_column l vs df)) as Hrepl.
  { intros. by apply replace_column_rectangular. }
  rewrite !(encode_column_eq _ df Hrect).
  destruct (find_column a (data df)) as [ca|] eqn:Ha,
    (find_column b (data df)) as [cb|] eqn:Hb; simpl.
  - pose proof (find_column_length _ _ _ Hrect Ha) as Hla.
    pose proof (find_column_length _ _ _ Hrect Hb) as Hlb.
    destruct (uniform ca) eqn:Hua, (uniform cb) eqn:Hub; simpl;
      rewrite ?encode_column_eq by (apply Hrepl; by rewrite length_fmap);
      rewrite ?find_column_replace_column_ne by done;
      rewrite ?Ha, ?Hb, ?Hua, ?Hub; try done.
    by rewrite replace_column_commute.
  - pose proof (find_column_length _ _ _ Hrect Ha) as Hla.
    destruct (uniform ca) eqn:Hua; simpl;
      rewrite ?encode_column_eq by (first [done | apply Hrepl; by rewrite length_fmap]);
      rewrite ?find_column_replace_column_ne by done;
      rewrite ?Ha, ?Hb, ?Hua; done.
  - pose proof (find_column_length _ _ _ Hrect Hb) as Hlb.
    destruct (uniform cb) eqn:Hub; simpl;
      rewrite ?encode_column_eq by (first [done | apply Hrepl; by rewrite length_fmap]);
      rewrite ?find_column_replace_column_ne by done;
      rewrite ?Ha, ?Hb, ?Hub; done.
  - rewrite !(encode_column_eq _ df Hrect). by rewrite Ha, Hb.
Qed.

Lemma encodings_commute_witness :
  encode_column "PaymentMethod"
    (surviving (frame_of sample_header sample_records))
  ≫= encode_column "ProductCategory"
  = encode_column "ProductCategory"
      (surviving (frame_of sample_header sample_records))
    ≫= encode_column "PaymentMethod".
Proof.
  apply (encodings_commute "PaymentMethod" "ProductCategory"
           (surviving (frame_of sample_header sample_records))).
  - unfold rectangular. vm_compute. repeat constructor.
  - discriminate.
Defined.

(** ** The script *)

(** X16: when nothing exists at the input path the script prints one line
    only, with or without [--quiet]: the failure, carrying FileNotFoundError
    for that path; no file is created or changed. *)
Theorem script_on_a_missing_input parse args t :
  disk t !! input args = None →
  main parse args t
  = {| disk := disk t;
       terminal := terminal t ++ [Failed (FileNotFoundError (input args))] |}.
Proof.
  intros Hf. unfold main. by rewrite preprocess_missing.
Qed.

Lemma script_on_a_missing_input_witness :
  main digits_parser default_args {| disk := files sample_world; terminal := [] |}
  = {| disk := files sample_world;
       terminal := [Failed (FileNotFoundError
                              "Retail-Transaction-Dataset_raw.csv")] |}.
Proof.
  apply (script_on_a_missing_input digits_parser default_args
           {| disk := files sample_world; terminal := [] |}).
  vm_compute. reflexivity.
Defined.

Example script_run :
  main digits_parser
    {| input := "raw.csv"; output := "out/clean.csv"; quiet := true |}
    {| disk := files stray_world; terminal := [] |}
  = {| disk :=
         <["out/clean.csv" :=
             Csv ["TransactionDate"; "Quantity"] [ [Timestamp 20240101; Int 2] ]]>
           (files stray_world);
       terminal := [Saved "out/clean.csv"] |}.
Proof. vm_compute. reflexivity. Qed.

(** ** The remaining columns and errors *)

Lemma encode_column_Error label df e :
  rectangular df → encode_column label df = Error e → e = TypeError.
Proof.
  intros Hrect. rewrite (encode_column_eq _ _ Hrect).
  destruct (find_column label (data df)) as [col|]; [|done].
  destruct (uniform col); [done|]. by intros [= <-].
Qed.

(** X17: when every surviving date can be parsed but the surviving values
    of PaymentMethod, or of ProductCategory, are of more than one type, the
    call raises the encoder's TypeError and no file is written or changed. *)
Theorem mixed_labels_raise
    parse w input_path output_path verbose f df label col :
  files w !! input_path = Some f →
  parse_csv f = Ok df →
  (∀ dates, getitem "TransactionDate" (surviving df) = Ok dates →
            Forall (λ v, is_Some (parse dates v)) dates) →
  label = "PaymentMethod" ∨ label = "ProductCategory" →
  getitem label (surviving df) = Ok col →
  uniform col = false →
  ∃ w', preprocess_transaction_data parse input_path output_path verbose w
        = (Error TypeError, w')
        ∧ files w' = files w.
Proof.
  intros Hf Hdf Hdates Hlabel Hcol Hmixed.
  pose proof (parse_csv_rectangular _ _ Hdf) as Hrect.
  pose proof (surviving_rectangular df Hrect) as Hrect0.
  rewrite (preprocess_run _ _ _ _ w f) by done. simpl. rewrite Hdf. simpl.
  assert (cleaned parse df = Error TypeError) as ->; [|by eexists].
  destruct (cleaned parse df) as [df'|e] eqn:Hclean.
  - exfalso.
    destruct (proj1 (cleaned_is_Ok parse df Hrect)) as (_ & Hpay & Hcat); [eauto|].
    destruct Hlabel as [-> | ->]; [specialize (Hpay col Hcol)|specialize (Hcat col Hcol)];
      congruence.
  - f_equal.
    assert (∃ d1, convert_transaction_date parse (surviving df) = Ok d1) as [d1 H1].
    { rewrite (convert_transaction_date_eq _ _ Hrect0).
      destruct (find_column _ _) as [dates|] eqn:Hd; [|eauto].
      destruct (proj2 (to_datetime_is_Ok parse dates)) as [ds ->]; [|simpl; eauto].
      apply Hdates. by apply getitem_Ok. }
    pose proof (convert_transaction_date_rectangular _ _ _ Hrect0 H1) as Hrect1.
    pose proof (pruned_rectangular _ Hrect1) as Hrect2.
    assert (drop_unneeded (rename_discount d1) = Ok (pruned d1)) as Hdrop.
    { by rewrite drop_unneeded_eq. }
    unfold cleaned in Hclean. rewrite H1 in Hclean.
    change (drop_unneeded (rename_discount d1) ≫= (λ d,
              encode_column "PaymentMethod" d ≫= encode_column "ProductCategory")
            = Error e) in Hclean.
    rewrite Hdrop in Hclean.
    change (encode_column "PaymentMethod" (pruned d1)
              ≫= encode_column "ProductCategory" = Error e) in Hclean.
    destruct (encode_column "PaymentMethod" (pruned d1)) as [d2|e2] eqn:H2.
    + eapply (encode_column_Error "ProductCategory" d2);
        [by eapply encode_column_rectangular | done].
    + simpl in Hclean. injection Hclean as <-.
      by eapply encode_column_Error.
Qed.

Lemma mixed_labels_raise_witness :
  ∃ w', preprocess_transaction_data digits_parser "raw.csv" "out/clean.csv"
          true mixed_world
        = (Error TypeError, w')
        ∧ files w' = files mixed_world.
Proof.
  apply (mixed_labels_raise digits_parser mixed_world "raw.csv" "out/clean.csv"
           true
           (Csv ["TransactionDate"; "PaymentMethod"]
                [ [Str "20240101"; Str "Cash"]; [Str "20240102"; Int 3] ])
           (frame_of ["TransactionDate"; "PaymentMethod"]
                [ [Str "20240101"; Str "Cash"]; [Str "20240102"; Int 3] ])
           "PaymentMethod" [Str "Cash"; Int 3]).
  - vm_compute. reflexivity.
  - vm_compute. reflexivity.
  - intros dates. vm_compute. intros [= <-].
    repeat constructor; vm_compute; eauto.
  - left. reflexivity.
  - vm_compute. reflexivity.
  - vm_compute. reflexivity.
Defined.

Lemma find_column_pruned_kept label df :
  label ≠ "DiscountApplied(%)" → label ≠ "DiscountApplied" →
  label ∉ cols_to_drop →
  find_column label (data (pruned df)) = find_column label (data df).
Proof.
  intros Hold Hnew Hdrop. unfold pruned. cbn [data].
  rewrite find_column_filter by (by intros c ->).
  rewrite data_rename_discount. apply find_column_fmap_other, Forall_forall.
  intros c _. simpl. split; [|done].
  unfold new_name. case_bool_decide; split; congruence.
Qed.

(** X18: when TransactionDate is a column of the input, the written column
    holds, row by row, what the parser returns for the surviving value of
    that row: no date is changed in any other way, and none is dropped or
    added. *)
Theorem dates_are_the_parsed_values
    parse w input_path output_path verbose h rs p w' :
  files w !! input_path = Some (Csv h rs) →
  preprocess_transaction_data parse input_path output_path verbose w = (Ok p, w') →
  "TransactionDate" ∈ h →
  ∃ df' col dates,
    cleaned parse (frame_of h rs) = Ok df' ∧
    files w' !! output_path = Some (render_csv df') ∧
    getitem "TransactionDate" (surviving (frame_of h rs)) = Ok col ∧
    getitem "TransactionDate" df' = Ok dates ∧
    Forall2 (λ v d, parse col v = Some d) col dates.
Proof.
  intros Hf Hrun Hin.
  destruct (preprocess_Ok_csv _ _ _ _ _ _ _ _ _ Hf Hrun) as (df' & Hclean & Hout).
  apply cleaned_inv in Hclean as Hstages. destruct Hstages as (d1 & d2 & H1 & H2 & H3).
  rewrite <-(columns_frame_of h rs), <-columns_surviving in Hin.
  apply convert_transaction_date_inv in H1
    as [[? _]|(col & dates & _ & Hcol & Hdates & _ & ->)]; [done|].
  exists df', col, dates. split_and!; auto.
  - apply getitem_Ok.
    rewrite (find_column_encode_column "ProductCategory" "TransactionDate"
               _ _ ltac:(done) H3).
    rewrite (find_column_encode_column "PaymentMethod" "TransactionDate"
               _ _ ltac:(done) H2).
    rewrite find_column_pruned_kept; try done.
    + apply getitem_Ok. by apply getitem_replace_column_eq.
    + unfold cols_to_drop. rewrite !not_elem_of_cons. split_and!; try done.
      apply not_elem_of_nil.
  - apply traverse_Ok in Hdates. eapply Forall2_impl; [done|]. simpl.
    intros v d Hd. destruct (parse col v); by simplify_eq/=.
Qed.

Lemma dates_are_the_parsed_values_witness :
  ∃ df' col dates,
    cleaned digits_parser (frame_of sample_header sample_records) = Ok df' ∧
    files (preprocess_transaction_data digits_parser "raw.csv" "out/clean.csv"
             true sample_world).2 !! "out/clean.csv" = Some (render_csv df') ∧
    getitem "TransactionDate"
      (surviving (frame_of sample_header sample_records)) = Ok col ∧
    getitem "TransactionDate" df' = Ok dates ∧
    Forall2 (λ v d, digits_parser col v = Some d) col dates.
Proof.
  apply (dates_are_the_parsed_values digits_parser sample_world
           "raw.csv" "out/clean.csv" true sample_header sample_records
           "out/clean.csv").
  - vm_compute. reflexivity.
  - vm_compute. reflexivity.
  - unfold sample_header. left.
Defined.

(** * Missing values, the clock and failures *)

(** ** Where a written cell can be missing *)



Lemma new_name_TransactionDate n :
  new_name n = "TransactionDate" → n = "TransactionDate".
Proof. unfold new_name. by case_bool_decide. Qed.






Example nat_run :
  preprocess_transaction_data nat_parser "raw.csv" "out/clean.csv" false
    nat_world
  = (Ok "out/clean.csv",
     {| files :=
          <["out/clean.csv" :=
              Csv ["TransactionDate"; "Quantity"] [ [NaN; Int 3] ]]>
            (files nat_world);
        stdout := [] |}).
Proof. vm_compute. reflexivity. Qed.

(** ** Two calls on the same input *)






Example clock_run now :
  preprocess_transaction_data (clock_parser now) "raw.csv" "out/clean.csv"
    false clock_world
  = (Ok "out/clean.csv",
     {| files :=
          <["out/clean.csv" :=
              Csv ["TransactionDate"; "Quantity"] [ [Timestamp now; Int 3] ]]>
            (files clock_world);
        stdout := [] |}).
Proof. reflexivity. Qed.

(** ** Exceptions raised before the write *)

(** X2: when nothing exists at the input path, or the file cannot be read
    as a table, or one of the stages between the reading and the writing
    raises, the call raises that exception and every file is as it was: all
    of these are raised before line 76, where the output directory is made,
    and line 78, where the file is written. *)
Theorem failure_before_the_write_writes_nothing
    parse w input_path output_path verbose e :
  (files w !! input_path = None ∧ e = FileNotFoundError input_path)
  ∨ (∃ f, files w !! input_path = Some f
          ∧ parse_csv f ≫= cleaned parse = Error e) →
  ∃ w', preprocess_transaction_data parse input_path output_path verbose w
        = (Error e, w')
        ∧ files w' = files w.
Proof.
  intros [[Hf ->]|(f & Hf & Hstages)].
  - rewrite preprocess_missing by done. eauto.
  - rewrite (preprocess_run _ _ _ _ w f) by done. simpl. rewrite Hstages. eauto.
Qed.

Lemma failure_before_the_write_writes_nothing_witness :
  ∃ w', preprocess_transaction_data digits_parser "raw.csv" "out/clean.csv"
          true mixed_world
        = (Error TypeError, w')
        ∧ files w' = files mixed_world.
Proof.
  apply (failure_before_the_write_writes_nothing digits_parser mixed_world
           "raw.csv" "out/clean.csv" true TypeError).
  right.
  exists (Csv ["TransactionDate"; "PaymentMethod"]
              [ [Str "20240101"; Str "Cash"]; [Str "20240102"; Int 3] ]).
  split; vm_compute; reflexivity.
Defined.

(** X3: on a frame as loaded, the stages between the reading and the
    writing (lines 38 to 72) raise only where [pd.to_datetime] or the label
    encoder raises: the column lookups, the column assignments, the rename
    and the drop never do (no KeyError, no ValueError for a column of the
    wrong length), each being guarded by a test that the column exists. *)
Theorem stages_raise_only_in_the_parser_or_the_encoder parse f df e :
  parse_csv f = Ok df →
  cleaned parse df = Error e →
  e = DateParseError ∨ e = TypeError.
Proof.
  intros Hdf%parse_csv_rectangular Hclean. by eapply cleaned_Error.
Qed.

Lemma stages_raise_only_in_the_parser_or_the_encoder_witness :
  TypeError = DateParseError ∨ TypeError = TypeError.
Proof.
  apply (stages_raise_only_in_the_parser_or_the_encoder digits_parser
           (Csv ["TransactionDate"; "PaymentMethod"]
                [ [Str "20240101"; Str "Cash"]; [Str "20240102"; Int 3] ])
           (frame_of ["TransactionDate"; "PaymentMethod"]
                [ [Str "20240101"; Str "Cash"]; [Str "20240102"; Int 3] ])
           TypeError).
  - vm_compute. reflexivity.
  - vm_compute. reflexivity.
Defined.

